(** * LandcLogFace: the logging facade, its console/std adapters and the
      provider registry, embedded from the Go sources.

    Files covered: logger.go (levels, fields, options), the console adapter,
    the standard-library adapter, log_factory.go (registry, global accessor).

    Go values are modelled as the code has them:
    - [LogLevel] is Go's [int], here [Z];
    - [interface{}] values are the tagged union [any];
    - a [[]Field] slice is a header (pointer, len, cap) over a store of
      backing arrays, with Go's [append] writing in place when the capacity
      allows it and allocating otherwise;
    - [*ConsoleLogger] / [*StdLogger] are addresses into a store of structs;
    - what [log.Logger.Println] writes is recorded in an output trace;
    - [os.Exit] and [panic] are outcomes of a call. *)

From Stdlib Require Import ZArith Ascii String List Lia Bool.
From stdpp Require Import base option list gmap strings pretty.

Local Open Scope Z_scope.

(** ** logger.go: severity levels *)

Definition LogLevel := Z.

Definition DebugLevel : LogLevel := 0.
Definition InfoLevel  : LogLevel := 1.
Definition WarnLevel  : LogLevel := 2.
Definition ErrorLevel : LogLevel := 3.
Definition FatalLevel : LogLevel := 4.
Definition PanicLevel : LogLevel := 5.

(** [func (l LogLevel) String() string]: a switch over the six constants. *)
Definition LogLevel_String (l : LogLevel) : string :=
  if (l =? DebugLevel)%Z then "DEBUG"
  else if (l =? InfoLevel)%Z then "INFO"
  else if (l =? WarnLevel)%Z then "WARN"
  else if (l =? ErrorLevel)%Z then "ERROR"
  else if (l =? FatalLevel)%Z then "FATAL"
  else if (l =? PanicLevel)%Z then "PANIC"
  else "UNKNOWN".

(** ** logger.go: fields and options *)

(** Dynamically typed values ([interface{}]): the dynamic types the
    repository stores in fields and configuration maps. *)
Inductive any : Type :=
| VNil
| VString (s : string)
| VInt (n : Z)
| VBool (b : bool)
| VLogLevel (l : LogLevel)
| VError (msg : string)
| VTime (t : Z)
| VOther (tag : nat).

Record Field : Type := mkField { Key : string; Value : any }.

(** The zero value of [Field], the content of unwritten array cells. *)
Definition zeroField : Field := mkField "" VNil.

Record LoggerOptions : Type := mkOptions {
  opt_Level : LogLevel;
  opt_Format : string;
  opt_OutputPath : string;
  opt_Config : gmap string any
}.

(** [type Option func(opt)] over a pointer to [LoggerOptions]: the struct is local to the
    constructor that applies them, so a mutator is a function on its value. *)
Definition Option := LoggerOptions -> LoggerOptions.

Definition WithLevel (level : LogLevel) : Option :=
  fun opt => mkOptions level (opt_Format opt) (opt_OutputPath opt) (opt_Config opt).

Definition WithFormat (format : string) : Option :=
  fun opt => mkOptions (opt_Level opt) format (opt_OutputPath opt) (opt_Config opt).

Definition WithOutputPath (path : string) : Option :=
  fun opt => mkOptions (opt_Level opt) (opt_Format opt) path (opt_Config opt).

Definition WithConfig (config : gmap string any) : Option :=
  fun opt => mkOptions (opt_Level opt) (opt_Format opt) (opt_OutputPath opt) config.

(** ** The Go runtime and standard library the adapters call *)

Record GoEnv : Type := mkEnv {
  (** [fmt.Sprintf(format, args...)] *)
  Sprintf : string -> list any -> string;
  (** the [%v] verb of [fmt] on one value *)
  fmt_v : any -> string;
  (** [Time.Format("2006-01-02 15:04:05.000")] *)
  time_Format : Z -> string;
  (** the line header of package [log] for a non-zero flag word *)
  log_header : Z -> Z -> string;
  (** whether [os.OpenFile(path, O_CREATE|O_WRONLY|O_APPEND, 0666)] succeeds *)
  OpenFile_ok : string -> bool;
  (** the capacity the runtime picks when a slice must grow: old capacity,
      needed length *)
  growslice : nat -> nat -> nat
}.

(** ** Store *)

Inductive Sink : Type := Stdout | File (path : string).

(** [*log.Logger]: output and flags are fixed by [log.New] and never changed
    by the adapters, so copies of the pointer are copies of this value. *)
Record log_Logger : Type := mkLog { lg_out : Sink; lg_flags : Z }.

Definition LstdFlags : Z := 3.

(** [context.Context] values. *)
Inductive Context : Type := Background | CtxValue (id : nat).

(** Header of a [[]Field]: backing array, length, capacity. Slices of the
    adapters are only made by [make] and [append], so they start at offset 0
    of their array. *)
Record Slice : Type := mkSlice { s_ptr : nat; s_len : nat; s_cap : nat }.

Inductive Adapter : Type := Console | Std.

(** [ConsoleLogger] and [StdLogger] declare the same five fields; [kind] is
    the dynamic type of the struct. *)
Record LoggerCell : Type := mkCell {
  kind : Adapter;
  level : LogLevel;
  fields : Slice;
  ctx : Context;
  logger : log_Logger;
  name : string
}.

Record Heap : Type := mkHeap {
  clock : Z;                              (* what time.Now() reads *)
  arrays : list (list Field);             (* backing arrays of []Field *)
  cells : list LoggerCell;                (* allocated logger structs *)
  trace : list (Sink * string)            (* writes, oldest first *)
}.

Definition set_arrays (a : list (list Field)) (h : Heap) : Heap :=
  mkHeap (clock h) a (cells h) (trace h).
Definition set_cells (c : list LoggerCell) (h : Heap) : Heap :=
  mkHeap (clock h) (arrays h) c (trace h).
Definition set_trace (t : list (Sink * string)) (h : Heap) : Heap :=
  mkHeap (clock h) (arrays h) (cells h) t.

Definition empty_heap (now : Z) : Heap := mkHeap now [] [] [].

(** *** Slices *)

Definition array_at (h : Heap) (p : nat) : list Field :=
  default [] (arrays h !! p).

(** The elements a slice shows: [s[0:len(s)]]. *)
Definition slice_view (h : Heap) (s : Slice) : list Field :=
  take (s_len s) (array_at h (s_ptr s)).

(** [make([]Field, 0)] *)
Definition make_empty : Slice := mkSlice 0 0 0.

(** A slice header is valid when its window lies inside its array. *)
Definition slice_ok (h : Heap) (s : Slice) : bool :=
  (s_len s <=? s_cap s)%nat && (s_cap s <=? length (array_at h (s_ptr s)))%nat.

Definition heap_ok (h : Heap) : bool :=
  forallb (fun c => slice_ok h (fields c)) (cells h).

(** *** Outcomes of a call *)

(** Values of the [Logger] interface: nil, a pointer to a console or std
    struct (the struct's [kind] is its dynamic type), or an implementation
    from elsewhere (the zap and logrus adapters, user-defined loggers). *)
Inductive Logger : Type :=
| NilLogger
| Ptr (p : nat)
| Extern (impl : string) (id : nat).

(** A call returns, ends the process ([os.Exit]) or panics. *)
Inductive Outcome (A : Type) : Type :=
| Returns (a : A) (h : Heap)
| Exits (code : Z) (h : Heap)
| Panics (v : any) (h : Heap).
Arguments Returns {A} a h.
Arguments Exits {A} code h.
Arguments Panics {A} v h.

Section Runtime.
Context (E : GoEnv).

(** Go's [append(s, xs...)]: when [len(s)+len(xs) <= cap(s)] the elements are
    written into the backing array of [s] past its length and the result
    shares that array; otherwise a new array is allocated. *)
Definition append (s : Slice) (xs : list Field) (h : Heap) : Slice * Heap :=
  let n := (s_len s + length xs)%nat in
  if (n <=? s_cap s)%nat then
    (mkSlice (s_ptr s) n (s_cap s),
     set_arrays (alter (list_inserts (s_len s) xs) (s_ptr s) (arrays h)) h)
  else
    let newcap := Nat.max n (growslice E (s_cap s) n) in
    let arr := slice_view h s ++ xs ++ replicate (newcap - n) zeroField in
    (mkSlice (length (arrays h)) n newcap, set_arrays (arrays h ++ [arr]) h).

(** A call and then, when it returns, the next one. *)
Definition and_then {A B} (o : Outcome A) (k : A -> Heap -> Outcome B) : Outcome B :=
  match o with
  | Returns a h => k a h
  | Exits code h => Exits code h
  | Panics v h => Panics v h
  end.

Definition heap_of {A} (o : Outcome A) : Heap :=
  match o with Returns _ h | Exits _ h | Panics _ h => h end.

Definition nil_dereference : any :=
  VError "invalid memory address or nil pointer dereference".

(** Reading [*p]: an address that holds no struct is the nil pointer. *)
Definition deref {A} (p : nat) (h : Heap) (k : LoggerCell -> Outcome A) : Outcome A :=
  match cells h !! p with
  | Some c => k c
  | None => Panics nil_dereference h
  end.

Definition newline : string := String (Ascii.ascii_of_nat 10) EmptyString.

(** [log.Logger.Println(s)]: one write of header, text and newline. *)
Definition Println (lg : log_Logger) (s : string) (h : Heap) : Heap :=
  let header := if (lg_flags lg =? 0)%Z then ""
                else log_header E (lg_flags lg) (clock h) in
  set_trace (trace h ++ [(lg_out lg, header +:+ s +:+ newline)]) h.

(** ** The console and std adapters *)

(** The std adapter repeats the console adapter method for method; the two
    differ in [formatMessage] (the console line starts with a timestamp) and
    in the flags given to [log.New]. Each method below is the code of both
    adapters, with the struct's [kind] deciding where they differ. *)

(** [fmt.Sprintf(" %s=%v", field.Key, field.Value)] *)
Definition fmt_field (f : Field) : string :=
  " " +:+ Key f +:+ "=" +:+ fmt_v E (Value f).

(** The loop [for _, field := range allFields { fieldStr += ... }]. *)
Definition fieldStr (allFields : list Field) : string :=
  foldl (fun acc f => acc +:+ fmt_field f) "" allFields.

(** [formatMessage]: the console version starts with the timestamp, the std
    version does not; both run [append(c.fields, fields...)]. *)
Definition formatMessage (c : LoggerCell) (lvl : LogLevel) (msg : string)
    (flds : list Field) (h : Heap) : string * Heap :=
  let timestamp := time_Format E (clock h) in
  let '(allFields, h1) := append (fields c) flds h in
  let fs := fieldStr (slice_view h1 allFields) in
  match kind c with
  | Console =>
      (timestamp +:+ " [" +:+ LogLevel_String lvl +:+ "] [" +:+ name c +:+ "] "
         +:+ msg +:+ fs, h1)
  | Std =>
      ("[" +:+ LogLevel_String lvl +:+ "] [" +:+ name c +:+ "] " +:+ msg +:+ fs, h1)
  end.

Definition SetLevel (p : nat) (lvl : LogLevel) (h : Heap) : Outcome unit :=
  deref p h (fun c =>
    let c' := mkCell (kind c) lvl (fields c) (ctx c) (logger c) (name c) in
    Returns tt (set_cells (<[p := c']> (cells h)) h)).

Definition GetLevel (p : nat) (h : Heap) : Outcome LogLevel :=
  deref p h (fun c => Returns (level c) h).

Definition Debug (p : nat) (msg : string) (flds : list Field) (h : Heap) : Outcome unit :=
  deref p h (fun c =>
    if (level c <=? DebugLevel)%Z then
      let '(line, h1) := formatMessage c DebugLevel msg flds h in
      Returns tt (Println (logger c) line h1)
    else Returns tt h).

Definition Debugf (p : nat) (format : string) (args : list any) (h : Heap) : Outcome unit :=
  deref p h (fun c =>
    if (level c <=? DebugLevel)%Z then
      let msg := Sprintf E format args in
      let '(line, h1) := formatMessage c DebugLevel msg [] h in
      Returns tt (Println (logger c) line h1)
    else Returns tt h).

Definition Info (p : nat) (msg : string) (flds : list Field) (h : Heap) : Outcome unit :=
  deref p h (fun c =>
    if (level c <=? InfoLevel)%Z then
      let '(line, h1) := formatMessage c InfoLevel msg flds h in
      Returns tt (Println (logger c) line h1)
    else Returns tt h).

Definition Infof (p : nat) (format : string) (args : list any) (h : Heap) : Outcome unit :=
  deref p h (fun c =>
    if (level c <=? InfoLevel)%Z then
      let msg := Sprintf E format args in
      let '(line, h1) := formatMessage c InfoLevel msg [] h in
      Returns tt (Println (logger c) line h1)
    else Returns tt h).

Definition Warn (p : nat) (msg : string) (flds : list Field) (h : Heap) : Outcome unit :=
  deref p h (fun c =>
    if (level c <=? WarnLevel)%Z then
      let '(line, h1) := formatMessage c WarnLevel msg flds h in
      Returns tt (Println (logger c) line h1)
    else Returns tt h).

Definition Warnf (p : nat) (format : string) (args : list any) (h : Heap) : Outcome unit :=
  deref p h (fun c =>
    if (level c <=? WarnLevel)%Z then
      let msg := Sprintf E format args in
      let '(line, h1) := formatMessage c WarnLevel msg [] h in
      Returns tt (Println (logger c) line h1)
    else Returns tt h).

Definition Error (p : nat) (msg : string) (flds : list Field) (h : Heap) : Outcome unit :=
  deref p h (fun c =>
    if (level c <=? ErrorLevel)%Z then
      let '(line, h1) := formatMessage c ErrorLevel msg flds h in
      Returns tt (Println (logger c) line h1)
    else Returns tt h).

Definition Errorf (p : nat) (format : string) (args : list any) (h : Heap) : Outcome unit :=
  deref p h (fun c =>
    if (level c <=? ErrorLevel)%Z then
      let msg := Sprintf E format args in
      let '(line, h1) := formatMessage c ErrorLevel msg [] h in
      Returns tt (Println (logger c) line h1)
    else Returns tt h).

(** [Fatal]/[Fatalf]: inside the level test, print and then [os.Exit(1)]. *)
Definition Fatal (p : nat) (msg : string) (flds : list Field) (h : Heap) : Outcome unit :=
  deref p h (fun c =>
    if (level c <=? FatalLevel)%Z then
      let '(line, h1) := formatMessage c FatalLevel msg flds h in
      Exits 1 (Println (logger c) line h1)
    else Returns tt h).

Definition Fatalf (p : nat) (format : string) (args : list any) (h : Heap) : Outcome unit :=
  deref p h (fun c =>
    if (level c <=? FatalLevel)%Z then
      let msg := Sprintf E format args in
      let '(line, h1) := formatMessage c FatalLevel msg [] h in
      Exits 1 (Println (logger c) line h1)
    else Returns tt h).

(** [Panic]/[Panicf]: inside the level test, print and then [panic] with the
    whole formatted line. *)
Definition Panic (p : nat) (msg : string) (flds : list Field) (h : Heap) : Outcome unit :=
  deref p h (fun c =>
    if (level c <=? PanicLevel)%Z then
      let '(msg', h1) := formatMessage c PanicLevel msg flds h in
      Panics (VString msg') (Println (logger c) msg' h1)
    else Returns tt h).

Definition Panicf (p : nat) (format : string) (args : list any) (h : Heap) : Outcome unit :=
  deref p h (fun c =>
    if (level c <=? PanicLevel)%Z then
      let msg := Sprintf E format args in
      let '(fullMsg, h1) := formatMessage c PanicLevel msg [] h in
      Panics (VString fullMsg) (Println (logger c) fullMsg h1)
    else Returns tt h).

(** [WithFields]: [newLogger := *c] copies the struct, the copy's [fields]
    becomes [append(newLogger.fields, fields...)], and the address of the
    copy, a new allocation, is returned. *)
Definition WithFields (p : nat) (flds : list Field) (h : Heap) : Outcome Logger :=
  deref p h (fun c =>
    let '(fs, h1) := append (fields c) flds h in
    let newLogger := mkCell (kind c) (level c) fs (ctx c) (logger c) (name c) in
    Returns (Ptr (length (cells h1))) (set_cells (cells h1 ++ [newLogger]) h1)).

Definition WithField (p : nat) (key : string) (value : any) (h : Heap) : Outcome Logger :=
  WithFields p [mkField key value] h.

Definition WithContext (p : nat) (ctx' : Context) (h : Heap) : Outcome Logger :=
  deref p h (fun c =>
    let newLogger := mkCell (kind c) (level c) (fields c) ctx' (logger c) (name c) in
    Returns (Ptr (length (cells h))) (set_cells (cells h ++ [newLogger]) h)).

Definition WithError (p : nat) (err : any) (h : Heap) : Outcome Logger :=
  WithField p "error" err h.

Definition WithTime (p : nat) (t : Z) (h : Heap) : Outcome Logger :=
  WithField p "time" (VTime t) h.

Definition IsDebugEnabled (p : nat) (h : Heap) : Outcome bool :=
  deref p h (fun c => Returns (level c <=? DebugLevel)%Z h).
Definition IsInfoEnabled (p : nat) (h : Heap) : Outcome bool :=
  deref p h (fun c => Returns (level c <=? InfoLevel)%Z h).
Definition IsWarnEnabled (p : nat) (h : Heap) : Outcome bool :=
  deref p h (fun c => Returns (level c <=? WarnLevel)%Z h).
Definition IsErrorEnabled (p : nat) (h : Heap) : Outcome bool :=
  deref p h (fun c => Returns (level c <=? ErrorLevel)%Z h).
Definition IsFatalEnabled (p : nat) (h : Heap) : Outcome bool :=
  deref p h (fun c => Returns (level c <=? FatalLevel)%Z h).
Definition IsPanicEnabled (p : nat) (h : Heap) : Outcome bool :=
  deref p h (fun c => Returns (level c <=? PanicLevel)%Z h).

(** *** Constructors *)

(** The options every constructor starts from. *)
Definition defaultOptions : LoggerOptions :=
  mkOptions InfoLevel "text" "stdout" ∅.

Definition applyOptions (opts : list Option) : LoggerOptions :=
  foldl (fun options opt => opt options) defaultOptions opts.

(** The output choice shared by both constructors: stdout, or the file when
    it opens, and stdout again when it does not. *)
Definition openOutput (path : string) : Sink :=
  if String.eqb path "stdout" then Stdout
  else if OpenFile_ok E path then File path
  else Stdout.

Definition NewConsoleLogger (name : string) (opts : list Option) (h : Heap) : nat * Heap :=
  let options := applyOptions opts in
  let output := openOutput (opt_OutputPath options) in
  let c := mkCell Console (opt_Level options) make_empty Background
                  (mkLog output 0) name in
  (length (cells h), set_cells (cells h ++ [c]) h).

Definition NewStdLogger (name : string) (opts : list Option) (h : Heap) : nat * Heap :=
  let options := applyOptions opts in
  let output := openOutput (opt_OutputPath options) in
  let c := mkCell Std (opt_Level options) make_empty Background
                  (mkLog output LstdFlags) name in
  (length (cells h), set_cells (cells h ++ [c]) h).

(** ** Providers *)

(** Values of the [LoggerProvider] interface: the nil interface value, which
    [RegisterProvider] stores like any other, or an implementation of the two
    methods. A method is Go code: its call returns a logger, ends the process
    or panics. *)
Inductive LoggerProvider : Type :=
| nilProvider
| mkProvider
    (create : string -> Heap -> Outcome Logger)
    (createWithConfig : string -> gmap string any -> Heap -> Outcome Logger).

(** [provider.Create(name)]: on the nil interface value the call is a
    run-time panic. *)
Definition Create (provider : LoggerProvider) (name : string) (h : Heap)
    : Outcome Logger :=
  match provider with
  | nilProvider => Panics nil_dereference h
  | mkProvider create _ => create name h
  end.

(** [provider.CreateWithConfig(name, config)] *)
Definition CreateWithConfig (provider : LoggerProvider) (name : string)
    (config : gmap string any) (h : Heap) : Outcome Logger :=
  match provider with
  | nilProvider => Panics nil_dereference h
  | mkProvider _ createWithConfig => createWithConfig name config h
  end.

(** The type assertions [config[k].(LogLevel)] and [config[k].(string)]. *)
Definition assert_LogLevel (v : option any) : option LogLevel :=
  match v with Some (VLogLevel l) => Some l | _ => None end.
Definition assert_string (v : option any) : option string :=
  match v with Some (VString s) => Some s | _ => None end.

Definition config_level (config : gmap string any) : LogLevel :=
  match assert_LogLevel (config !! "level") with
  | Some lvl => lvl
  | None => InfoLevel
  end.
Definition config_format (config : gmap string any) : string :=
  match assert_string (config !! "format") with
  | Some fmt => fmt
  | None => "text"
  end.
Definition config_outputPath (config : gmap string any) : string :=
  match assert_string (config !! "outputPath") with
  | Some path => path
  | None => "stdout"
  end.

Definition ConsoleLoggerProvider : LoggerProvider :=
  mkProvider
    (fun name h => let '(p, h1) := NewConsoleLogger name [] h in Returns (Ptr p) h1)
    (fun name config h =>
       let '(p, h1) :=
         NewConsoleLogger name
           [WithLevel (config_level config); WithFormat (config_format config);
            WithOutputPath (config_outputPath config); WithConfig config] h in
       Returns (Ptr p) h1).

Definition StdLoggerProvider : LoggerProvider :=
  mkProvider
    (fun name h => let '(p, h1) := NewStdLogger name [] h in Returns (Ptr p) h1)
    (fun name config h =>
       let '(p, h1) :=
         NewStdLogger name
           [WithLevel (config_level config); WithFormat (config_format config);
            WithOutputPath (config_outputPath config); WithConfig config] h in
       Returns (Ptr p) h1).

(** ** log_factory.go: the registry *)

Record LogFactory : Type := mkFactory {
  providers : gmap string LoggerProvider;
  defaultProvider : string
}.

Definition NewLogFactory : LogFactory := mkFactory ∅ "console".

Definition RegisterProvider (f : LogFactory) (name : string) (provider : LoggerProvider) : LogFactory :=
  mkFactory (<[name := provider]> (providers f)) (defaultProvider f).

Definition UnregisterProvider (f : LogFactory) (name : string) : LogFactory :=
  mkFactory (delete name (providers f)) (defaultProvider f).

Definition SetDefaultProvider (f : LogFactory) (name : string) : LogFactory :=
  mkFactory (providers f) name.

Definition GetDefaultProvider (f : LogFactory) : string := defaultProvider f.

Definition GetProvider (f : LogFactory) (name : string) : option LoggerProvider :=
  providers f !! name.

(** The map lookup [provider, exists := f.providers[name]] tells a missing
    key from a present one; a key that holds the nil value is present. *)
Definition CreateLoggerWithProvider (f : LogFactory) (name providerName : string)
    (h : Heap) : Outcome Logger :=
  match providers f !! providerName with
  | Some provider => Create provider name h
  | None =>
      match providers f !! defaultProvider f with
      | Some provider => Create provider name h
      | None => let '(p, h1) := NewConsoleLogger name [] h in Returns (Ptr p) h1
      end
  end.

Definition CreateLogger (f : LogFactory) (name : string) (h : Heap) : Outcome Logger :=
  CreateLoggerWithProvider f name (defaultProvider f) h.

Definition CreateLoggerWithConfig (f : LogFactory) (name : string)
    (config : gmap string any) (h : Heap) : Outcome Logger :=
  let providerName :=
    match assert_string (config !! "provider") with
    | Some pn => pn
    | None => defaultProvider f
    end in
  match providers f !! providerName with
  | Some provider => CreateWithConfig provider name config h
  | None =>
      match providers f !! defaultProvider f with
      | Some provider => CreateWithConfig provider name config h
      | None => let '(p, h1) := NewConsoleLogger name [] h in Returns (Ptr p) h1
      end
  end.

(** ** log_factory.go: package-level state *)

(** [factory] is nil until [factoryOnce] has run; [globalLogger] and
    [loggerOnce] are separate variables. *)
Record Globals : Type := mkGlobals {
  factory : option LogFactory;
  globalLogger : Logger;
  loggerOnce : bool
}.

(** The state of a process that has not touched the package. *)
Definition start : Globals := mkGlobals None NilLogger false.

Section Adapters.
(** The providers of the zap and logrus adapters, which wrap third-party
    libraries. *)
Context (ZapLoggerProvider LogrusLoggerProvider : LoggerProvider).

Definition GetLogFactory (g : Globals) : LogFactory * Globals :=
  match factory g with
  | Some f => (f, g)
  | None =>
      let f := NewLogFactory in
      let f := RegisterProvider f "console" ConsoleLoggerProvider in
      let f := RegisterProvider f "zap" ZapLoggerProvider in
      let f := RegisterProvider f "logrus" LogrusLoggerProvider in
      let f := RegisterProvider f "std" StdLoggerProvider in
      let f := SetDefaultProvider f "console" in
      (f, mkGlobals (Some f) (globalLogger g) (loggerOnce g))
  end.

(** [GetLogger]: [loggerOnce.Do] runs the initialiser when it has not run
    yet, whatever [globalLogger] holds. When the initialiser does not return,
    the assignment is not reached; [sync.Once] counts a panicking initialiser
    as done, and the panic goes on to the caller. *)
Definition GetLogger (g : Globals) (h : Heap) : Outcome Logger * Globals :=
  if loggerOnce g then (Returns (globalLogger g) h, g)
  else
    let '(f, g1) := GetLogFactory g in
    match CreateLogger f "global" h with
    | Returns l h1 => (Returns l h1, mkGlobals (factory g1) l true)
    | Exits code h1 => (Exits code h1, mkGlobals (factory g1) (globalLogger g1) true)
    | Panics v h1 => (Panics v h1, mkGlobals (factory g1) (globalLogger g1) true)
    end.

Definition SetGlobalLogger (l : Logger) (g : Globals) : Globals :=
  mkGlobals (factory g) l (loggerOnce g).

End Adapters.
End Runtime.

(** ** The emission methods of the interface, indexed by severity *)

Inductive Severity : Type := SDebug | SInfo | SWarn | SError | SFatal | SPanic.

Definition level_of (s : Severity) : LogLevel :=
  match s with
  | SDebug => DebugLevel | SInfo => InfoLevel | SWarn => WarnLevel
  | SError => ErrorLevel | SFatal => FatalLevel | SPanic => PanicLevel
  end.

Definition all_severities : list Severity :=
  [SDebug; SInfo; SWarn; SError; SFatal; SPanic].

Section Dispatch.
Context (E : GoEnv).

(** The unformatted method of a level: [Debug], [Info], ... *)
Definition emit (s : Severity) : nat -> string -> list Field -> Heap -> Outcome unit :=
  match s with
  | SDebug => Debug E | SInfo => Info E | SWarn => Warn E
  | SError => Error E | SFatal => Fatal E | SPanic => Panic E
  end.

(** The formatted method of a level: [Debugf], [Infof], ... *)
Definition emitf (s : Severity) : nat -> string -> list any -> Heap -> Outcome unit :=
  match s with
  | SDebug => Debugf E | SInfo => Infof E | SWarn => Warnf E
  | SError => Errorf E | SFatal => Fatalf E | SPanic => Panicf E
  end.

(** The query of a level: [IsDebugEnabled], [IsInfoEnabled], ... *)
Definition IsEnabled (s : Severity) : nat -> Heap -> Outcome bool :=
  match s with
  | SDebug => IsDebugEnabled | SInfo => IsInfoEnabled | SWarn => IsWarnEnabled
  | SError => IsErrorEnabled | SFatal => IsFatalEnabled | SPanic => IsPanicEnabled
  end.

(** The fields [formatMessage] renders for a call with [flds]. *)
Definition emitted_fields (c : LoggerCell) (flds : list Field) (h : Heap) : list Field :=
  let '(allFields, h1) := append E (fields c) flds h in slice_view h1 allFields.

(** The text before the message in a line of [formatMessage]. *)
Definition line_prefix (c : LoggerCell) (lvl : LogLevel) (h : Heap) : string :=
  match kind c with
  | Console => time_Format E (clock h) +:+ " [" +:+ LogLevel_String lvl +:+ "] ["
                 +:+ name c +:+ "] "
  | Std => "[" +:+ LogLevel_String lvl +:+ "] [" +:+ name c +:+ "] "
  end.

(** The write [Println] makes for a line: the sink, and the header, the
    line and a newline. *)
Definition record_of (lg : log_Logger) (s : string) (h : Heap) : Sink * string :=
  (lg_out lg,
   (if (lg_flags lg =? 0)%Z then "" else log_header E (lg_flags lg) (clock h))
     +:+ s +:+ newline).

(** The line a handle's struct [c] gives for a message and the fields of the
    call, read off the store [h]: prefix, message, bound fields, call fields. *)
Definition line_of (c : LoggerCell) (lvl : LogLevel) (msg : string)
    (flds : list Field) (h : Heap) : string :=
  line_prefix c lvl h +:+ msg +:+ fieldStr E (slice_view h (fields c) ++ flds).

(** What a leveled method does after the level test passed: format, print,
    and then return, exit or panic by the method. *)
Definition fire (s : Severity) (c : LoggerCell) (msg : string)
    (flds : list Field) (h : Heap) : Outcome unit :=
  let '(line, h1) := formatMessage E c (level_of s) msg flds h in
  match s with
  | SFatal => Exits 1 (Println E (logger c) line h1)
  | SPanic => Panics (VString line) (Println E (logger c) line h1)
  | _ => Returns tt (Println E (logger c) line h1)
  end.

End Dispatch.

(** What the hard-coded fallback builds: a console struct named [name], at
    level Info, writing to stdout, with no fields. *)
Definition fallback_console (name : string) (h : Heap) : Outcome Logger :=
  Returns (Ptr (length (cells h)))
    (set_cells (cells h ++ [mkCell Console InfoLevel make_empty Background
                                   (mkLog Stdout 0) name]) h).

(** What a call wrote: the writes of its final store past those of [h]. *)
Definition written {A} (o : Outcome A) (h : Heap) : list (Sink * string) :=
  drop (length (trace h)) (trace (heap_of o)).

(** A call emits when it adds exactly one write to the trace. *)
Definition emits {A} (o : Outcome A) (h : Heap) : Prop :=
  exists e, trace (heap_of o) = trace h ++ [e].

(** The outcome of the process-ending calls: [os.Exit] with a code, a panic
    with a value, a plain return. *)
Definition is_exit {A} (o : Outcome A) : bool :=
  match o with Exits _ _ => true | _ => false end.
Definition is_panic {A} (o : Outcome A) : bool :=
  match o with Panics _ _ => true | _ => false end.

(** ** An environment to run the model on concrete inputs *)

Module Sample.

Definition show (v : any) : string :=
  match v with
  | VNil => "<nil>"
  | VString s => s
  | VInt n => pretty n
  | VBool b => if b then "true" else "false"
  | VLogLevel l => LogLevel_String l
  | VError msg => msg
  | VTime t => "t" +:+ pretty t
  | VOther tag => "#" +:+ pretty tag
  end.

(** Substitution of the verbs [%v], [%s], [%d] and of [%%]. *)
Fixpoint substitute (format : string) (args : list any) : string :=
  match format with
  | EmptyString => EmptyString
  | String a EmptyString => String a EmptyString
  | String a (String b rest as tail) =>
      if Ascii.eqb a "%"%char then
        if Ascii.eqb b "%"%char then String "%"%char (substitute rest args)
        else if Ascii.eqb b "v"%char || Ascii.eqb b "s"%char || Ascii.eqb b "d"%char then
          match args with
          | v :: args' => show v +:+ substitute rest args'
          | [] => "%!" +:+ String b "(MISSING)" +:+ substitute rest []
          end
        else String a (substitute tail args)
      else String a (substitute tail args)
  end.

Definition env : GoEnv :=
  mkEnv substitute show
        (fun t => "T" +:+ pretty t)
        (fun _ t => "D" +:+ pretty t +:+ " ")
        (fun path => negb (String.eqb path "/proc/denied"))
        (fun old need => if (need <=? 2 * old)%nat then (2 * old)%nat else need).

Definition zap : LoggerProvider :=
  mkProvider (fun _ h => Returns (Extern "zap" 0) h)
             (fun _ _ h => Returns (Extern "zap" 0) h).
Definition logrus : LoggerProvider :=
  mkProvider (fun _ h => Returns (Extern "logrus" 0) h)
             (fun _ _ h => Returns (Extern "logrus" 0) h).

(** A store with one console logger ["svc"] at threshold [lvl]. *)
Definition one_console (lvl : LogLevel) : Heap :=
  snd (NewConsoleLogger env "svc" [WithLevel lvl] (empty_heap 0)).

(** A store with one std logger ["svc"] at threshold [lvl]. *)
Definition one_std (lvl : LogLevel) : Heap :=
  snd (NewStdLogger env "svc" [WithLevel lvl] (empty_heap 0)).

(** The structs those two stores hold at address 0. *)
Definition console_cell (lvl : LogLevel) : LoggerCell :=
  mkCell Console lvl make_empty Background (mkLog Stdout 0) "svc".
Definition std_cell (lvl : LogLevel) : LoggerCell :=
  mkCell Std lvl make_empty Background (mkLog Stdout LstdFlags) "svc".

(** The registry of a fresh process: console, zap, logrus, std; default
    ["console"]. *)
Definition registry : LogFactory := fst (GetLogFactory env zap logrus start).

(** The result of a call that returns, for chaining calls in examples. *)
Definition ptr_of (o : Outcome Logger) : nat :=
  match o with Returns (Ptr p) _ => p | _ => 0%nat end.

(** Three chained enrichments of the console logger at address 0: the
    handles at addresses 1, 2, 3 carry [a], [a b], [a b c]; the last slice
    has length 3 in an array of capacity 4. *)
Definition chain3 : Heap :=
  let o1 := WithField env 0 "a" (VInt 1) (one_console InfoLevel) in
  let o2 := WithField env (ptr_of o1) "b" (VInt 2) (heap_of o1) in
  let o3 := WithField env (ptr_of o2) "c" (VInt 3) (heap_of o2) in
  heap_of o3.

Definition chain3_cell : LoggerCell :=
  mkCell Console InfoLevel (mkSlice 2 3 4) Background (mkLog Stdout 0) "svc".

End Sample.

(** ** log_factory.go: the package-level functions *)

Section Package.
Context (E : GoEnv) (ZapLoggerProvider LogrusLoggerProvider : LoggerProvider).
(** What the emission methods of a logger from elsewhere do. *)
Context (extern_emit : string -> nat -> Severity -> string -> list Field -> Heap -> Outcome unit).
Context (extern_emitf : string -> nat -> Severity -> string -> list any -> Heap -> Outcome unit).

Definition GetLoggerWithName (name : string) (g : Globals) (h : Heap)
    : Outcome Logger * Globals :=
  let '(f, g1) := GetLogFactory E ZapLoggerProvider LogrusLoggerProvider g in
  (CreateLogger E f name h, g1).

Definition GetLoggerWithProvider (name provider : string) (g : Globals) (h : Heap)
    : Outcome Logger * Globals :=
  let '(f, g1) := GetLogFactory E ZapLoggerProvider LogrusLoggerProvider g in
  (CreateLoggerWithProvider E f name provider h, g1).

Definition GetLoggerWithConfig (name : string) (config : gmap string any)
    (g : Globals) (h : Heap) : Outcome Logger * Globals :=
  let '(f, g1) := GetLogFactory E ZapLoggerProvider LogrusLoggerProvider g in
  (CreateLoggerWithConfig E f name config h, g1).


Definition Logger_emitf (l : Logger) (s : Severity) (format : string)
    (args : list any) (h : Heap) : Outcome unit :=
  match l with
  | Ptr p => emitf E s p format args h
  | NilLogger => Panics nil_dereference h
  | Extern impl id => extern_emitf impl id s format args h
  end.

Definition Global_Debugf (format : string) (args : list any) (g : Globals) (h : Heap)
    : Outcome unit * Globals :=
  let '(o, g1) := GetLogger E ZapLoggerProvider LogrusLoggerProvider g h in
  (and_then o (fun l h1 => Logger_emitf l SDebug format args h1), g1).
Definition Global_Infof (format : string) (args : list any) (g : Globals) (h : Heap)
    : Outcome unit * Globals :=
  let '(o, g1) := GetLogger E ZapLoggerProvider LogrusLoggerProvider g h in
  (and_then o (fun l h1 => Logger_emitf l SInfo format args h1), g1).
Definition Global_Warnf (format : string) (args : list any) (g : Globals) (h : Heap)
    : Outcome unit * Globals :=
  let '(o, g1) := GetLogger E ZapLoggerProvider LogrusLoggerProvider g h in
  (and_then o (fun l h1 => Logger_emitf l SWarn format args h1), g1).
Definition Global_Errorf (format : string) (args : list any) (g : Globals) (h : Heap)
    : Outcome unit * Globals :=
  let '(o, g1) := GetLogger E ZapLoggerProvider LogrusLoggerProvider g h in
  (and_then o (fun l h1 => Logger_emitf l SError format args h1), g1).
Definition Global_Fatalf (format : string) (args : list any) (g : Globals) (h : Heap)
    : Outcome unit * Globals :=
  let '(o, g1) := GetLogger E ZapLoggerProvider LogrusLoggerProvider g h in
  (and_then o (fun l h1 => Logger_emitf l SFatal format args h1), g1).
Definition Global_Panicf (format : string) (args : list any) (g : Globals) (h : Heap)
    : Outcome unit * Globals :=
  let '(o, g1) := GetLogger E ZapLoggerProvider LogrusLoggerProvider g h in
  (and_then o (fun l h1 => Logger_emitf l SPanic format args h1), g1).


End Package.

(** ** Sequences of calls on the console and std adapters *)

Inductive Call : Type :=
| CNewConsoleLogger (name : string) (opts : list Option)
| CNewStdLogger (name : string) (opts : list Option)
| CSetLevel (p : nat) (lvl : LogLevel)
| CEmit (s : Severity) (p : nat) (msg : string) (flds : list Field)
| CEmitf (s : Severity) (p : nat) (format : string) (args : list any)
| CWithFields (p : nat) (flds : list Field)
| CWithField (p : nat) (key : string) (value : any)
| CWithContext (p : nat) (ctx' : Context)
| CWithError (p : nat) (err : any)
| CWithTime (p : nat) (t : Z).

(** The store a call leaves; for a call that exits or panics, the store at
    that point. *)
Definition perform (E : GoEnv) (c : Call) (h : Heap) : Heap :=
  match c with
  | CNewConsoleLogger name opts => snd (NewConsoleLogger E name opts h)
  | CNewStdLogger name opts => snd (NewStdLogger E name opts h)
  | CSetLevel p lvl => heap_of (SetLevel p lvl h)
  | CEmit s p msg flds => heap_of (emit E s p msg flds h)
  | CEmitf s p format args => heap_of (emitf E s p format args h)
  | CWithFields p flds => heap_of (WithFields E p flds h)
  | CWithField p key value => heap_of (WithField E p key value h)
  | CWithContext p ctx' => heap_of (WithContext p ctx' h)
  | CWithError p err => heap_of (WithError E p err h)
  | CWithTime p t => heap_of (WithTime E p t h)
  end.

Definition perform_all (E : GoEnv) (cs : list Call) (h : Heap) : Heap :=
  foldl (fun h c => perform E c h) h cs.

(** The calls that can write: the leveled methods. *)
Definition is_emission (c : Call) : bool :=
  match c with
  | CEmit _ _ _ _ | CEmitf _ _ _ _ => true
  | _ => false
  end.

(** ** The logrus adapter: field conversion *)

(** [LogrusLogger]: the wrapped [*logrus.Logger] is an opaque object. *)
Record LogrusLogger : Type := mkLogrus {
  lr_logger : nat;
  lr_level : LogLevel;
  lr_fields : Slice;
  lr_ctx : Context;
  lr_name : string
}.

(** [toLogrusFields]: a new [logrus.Fields] map, assigned the receiver's
    fields in order and then the fields of the call in order. *)
Definition toLogrusFields (l : LogrusLogger) (flds : list Field) (h : Heap)
    : gmap string any :=
  let logrusFields : gmap string any := ∅ in
  let logrusFields :=
    foldl (fun m f => <[Key f := Value f]> m) logrusFields (slice_view h (lr_fields l)) in
  foldl (fun m f => <[Key f := Value f]> m) logrusFields flds.

(** The value of the last field of a sequence that has key [k]. *)
Definition last_value (k : string) (l : list Field) : option any :=
  foldl (fun acc f => if String.eqb (Key f) k then Some (Value f) else acc) None l.

(** ** The zap adapter: field conversion and enrichment *)

(** [zap.Any(key, value)], kept as the pair it was built from. *)
Inductive zap_Field : Type := zap_Any (key : string) (value : any).

(** A [*zap.Logger], kept as the calls that built it: the logger the
    constructor made, and [With] applied to a logger. *)
Inductive zap_Logger : Type :=
| zap_Built (name : string)
| zap_With (parent : zap_Logger) (fs : list zap_Field).

(** All fields given to [With] on the way to a logger, oldest first. *)
Fixpoint zap_bound (z : zap_Logger) : list zap_Field :=
  match z with
  | zap_Built _ => []
  | zap_With parent fs => zap_bound parent ++ fs
  end.

Record ZapLogger : Type := mkZap {
  z_logger : zap_Logger;
  z_level : LogLevel;
  z_fields : Slice;
  z_ctx : Context;
  z_name : string
}.

(** [toZapFields]: the receiver's fields and then the fields of the call,
    each appended as [zap.Any(field.Key, field.Value)]. *)
Definition toZapFields (z : ZapLogger) (flds : list Field) (h : Heap) : list zap_Field :=
  let zapFields : list zap_Field := [] in
  let zapFields :=
    foldl (fun acc f => acc ++ [zap_Any (Key f) (Value f)]) zapFields
          (slice_view h (z_fields z)) in
  foldl (fun acc f => acc ++ [zap_Any (Key f) (Value f)]) zapFields flds.

Section ZapAdapter.
Context (E : GoEnv).

(** [ZapLogger.WithFields], on the struct value: the copy's fields are
    appended to, all of the copy's fields are converted, and the copy's
    logger is the receiver's logger [With] all of them. *)
Definition Zap_WithFields (z : ZapLogger) (flds : list Field) (h : Heap)
    : ZapLogger * Heap :=
  let '(fs, h1) := append E (z_fields z) flds h in
  let zapFields :=
    foldl (fun acc f => acc ++ [zap_Any (Key f) (Value f)]) [] (slice_view h1 fs) in
  (mkZap (zap_With (z_logger z) zapFields) (z_level z) fs (z_ctx z) (z_name z), h1).

Definition Zap_WithField (z : ZapLogger) (key : string) (value : any) (h : Heap)
    : ZapLogger * Heap :=
  Zap_WithFields z [mkField key value] h.

End ZapAdapter.

(** * Properties *)

(** ** Lists written in place *)

Lemma take_inserts_before {A} (k l : list A) (i n : nat) :
  (n <= i)%nat -> take n (list_inserts i k l) = take n l.
Proof.
  revert i. induction k as [|y k IH]; intros i Hn; simpl; [done|].
  rewrite take_insert_ge by lia. apply IH. lia.
Qed.

Lemma take_inserts_window {A} (k l : list A) (i : nat) :
  (i + length k <= length l)%nat ->
  take (i + length k) (list_inserts i k l) = take i l ++ k.
Proof.
  intros Hlen.
  rewrite <- (take_drop i l) at 1.
  assert (Hi : length (take i l) = i) by (rewrite length_take; lia).
  replace (list_inserts i k (take i l ++ drop i l))
    with (list_inserts (length (take i l) + 0) k (take i l ++ drop i l))
    by (rewrite Hi, Nat.add_0_r; done).
  rewrite list_inserts_app_r.
  rewrite <- (take_drop (length k) (drop i l)).
  rewrite list_inserts_0_r by (rewrite length_take, length_drop; lia).
  rewrite take_app, Hi.
  rewrite take_ge by lia.
  replace (i + length k - i)%nat with (length k) by lia.
  rewrite take_app_length. done.
Qed.

(** ** Slices and [append] *)

Section SliceFacts.
Context (E : GoEnv).

Lemma array_at_alter (h : Heap) (f : list Field -> list Field) (i p : nat) :
  f [] = [] ->
  array_at (set_arrays (alter f i (arrays h)) h) p =
  if decide (i = p) then f (array_at h p) else array_at h p.
Proof.
  intros Hf. unfold array_at, set_arrays; simpl.
  rewrite list_lookup_alter. case_decide as Hip; [subst i|done].
  destruct (arrays h !! p); simpl; [done|by rewrite Hf].
Qed.

Lemma array_at_alloc (h : Heap) (arr : list Field) (p : nat) :
  (p < length (arrays h))%nat ->
  array_at (set_arrays (arrays h ++ [arr]) h) p = array_at h p.
Proof.
  intros Hp. unfold array_at, set_arrays; simpl.
  by rewrite lookup_app_l.
Qed.

Lemma array_at_new (h : Heap) (arr : list Field) :
  array_at (set_arrays (arrays h ++ [arr]) h) (length (arrays h)) = arr.
Proof.
  unfold array_at, set_arrays; simpl.
  rewrite lookup_app_r by lia. by rewrite Nat.sub_diag.
Qed.

Lemma array_at_outside (h : Heap) (p : nat) :
  (length (arrays h) <= p)%nat -> array_at h p = [].
Proof.
  intros Hp. unfold array_at. by rewrite lookup_ge_None_2.
Qed.

(** [append] touches the arrays only. *)
Lemma append_frame (s s' : Slice) (xs : list Field) (h h' : Heap) :
  append E s xs h = (s', h') ->
  clock h' = clock h /\ cells h' = cells h /\ trace h' = trace h /\
  s_len s' = (s_len s + length xs)%nat.
Proof.
  unfold append. case_match; intros [= <- <-]; simpl; done.
Qed.

(** Arrays never shrink, and every array keeps its length. *)
Lemma append_array_length (s s' : Slice) (xs : list Field) (h h' : Heap) (p : nat) :
  append E s xs h = (s', h') ->
  (length (array_at h p) <= length (array_at h' p))%nat.
Proof.
  unfold append. case_match; intros [= <- <-].
  - rewrite array_at_alter by apply list_inserts_nil.
    case_decide; [rewrite length_inserts|]; lia.
  - destruct (decide (p < length (arrays h))%nat) as [Hp|Hp].
    + rewrite array_at_alloc by done. lia.
    + rewrite (array_at_outside h p) by lia. simpl. lia.
Qed.

(** The result of [append] shows the elements of [s] followed by [xs]. *)
Lemma append_view (s s' : Slice) (xs : list Field) (h h' : Heap) :
  slice_ok h s = true ->
  append E s xs h = (s', h') ->
  slice_view h' s' = slice_view h s ++ xs.
Proof.
  unfold slice_ok, append, slice_view. intros Hok.
  apply andb_prop in Hok as [Hlen Hcap].
  apply Nat.leb_le in Hlen. apply Nat.leb_le in Hcap.
  case_match eqn:Hfit; intros [= <- <-]; simpl.
  - apply Nat.leb_le in Hfit.
    rewrite array_at_alter by apply list_inserts_nil.
    rewrite decide_True by done.
    apply take_inserts_window. lia.
  - rewrite array_at_new.
    rewrite app_assoc, take_app_length'; [done|].
    rewrite length_app, length_take. lia.
Qed.

(** The slice that was appended to still shows what it showed: the
    in-place write lands past its length. *)
Lemma append_keeps_receiver (s s' : Slice) (xs : list Field) (h h' : Heap) :
  slice_ok h s = true ->
  append E s xs h = (s', h') ->
  slice_view h' s = slice_view h s.
Proof.
  unfold slice_ok, append, slice_view. intros Hok.
  apply andb_prop in Hok as [Hlen Hcap].
  apply Nat.leb_le in Hlen. apply Nat.leb_le in Hcap.
  case_match eqn:Hfit; intros [= <- <-]; simpl.
  - rewrite array_at_alter by apply list_inserts_nil.
    rewrite decide_True by done.
    by apply take_inserts_before.
  - destruct (decide (s_ptr s < length (arrays h))%nat) as [Hp|Hp].
    + by rewrite array_at_alloc.
    + rewrite (array_at_outside h) in * by lia. simpl in Hcap.
      assert (s_len s = 0)%nat as -> by lia. done.
Qed.

(** Valid headers stay valid, and the new header is valid. *)
Lemma append_slice_ok (s s' t : Slice) (xs : list Field) (h h' : Heap) :
  append E s xs h = (s', h') ->
  slice_ok h t = true -> slice_ok h' t = true.
Proof.
  intros Happ. unfold slice_ok. intros Hok.
  apply andb_prop in Hok as [Hlen Hcap].
  apply Nat.leb_le in Hlen. apply Nat.leb_le in Hcap.
  apply andb_true_intro; split; apply Nat.leb_le; [done|].
  pose proof (append_array_length s s' xs h h' (s_ptr t) Happ). lia.
Qed.

Lemma append_new_slice_ok (s s' : Slice) (xs : list Field) (h h' : Heap) :
  slice_ok h s = true ->
  append E s xs h = (s', h') ->
  slice_ok h' s' = true.
Proof.
  unfold slice_ok, append. intros Hok.
  apply andb_prop in Hok as [Hlen Hcap].
  apply Nat.leb_le in Hlen. apply Nat.leb_le in Hcap.
  case_match eqn:Hfit; intros [= <- <-]; simpl;
    apply andb_true_intro; split; apply Nat.leb_le.
  - by apply Nat.leb_le in Hfit.
  - rewrite array_at_alter by apply list_inserts_nil.
    rewrite decide_True by done. rewrite length_inserts. done.
  - lia.
  - rewrite array_at_new.
    rewrite !length_app, length_replicate.
    unfold slice_view. rewrite length_take. lia.
Qed.

End SliceFacts.

(** ** Strings *)

Lemma string_app_assoc (a b c : string) : (a +:+ b) +:+ c = a +:+ (b +:+ c).
Proof.
  induction a as [|x a IH]; [done|].
  change (String x ((a +:+ b) +:+ c) = String x (a +:+ (b +:+ c))).
  by rewrite IH.
Qed.

Lemma string_app_empty_r (a : string) : a +:+ "" = a.
Proof.
  induction a as [|x a IH]; [done|].
  change (String x (a +:+ "") = String x a).
  by rewrite IH.
Qed.

Section Rendering.
Context (E : GoEnv).

Lemma fieldStr_from (acc : string) (l : list Field) :
  foldl (fun acc f => acc +:+ fmt_field E f) acc l = acc +:+ fieldStr E l.
Proof.
  unfold fieldStr. revert acc. induction l as [|f l IH]; intros acc; simpl.
  - by rewrite string_app_empty_r.
  - rewrite IH, (IH ("" +:+ fmt_field E f)).
    change ("" +:+ fmt_field E f) with (fmt_field E f).
    by rewrite string_app_assoc.
Qed.

Lemma fieldStr_nil : fieldStr E [] = "".
Proof. done. Qed.

Lemma fieldStr_cons (f : Field) (l : list Field) :
  fieldStr E (f :: l) = fmt_field E f +:+ fieldStr E l.
Proof. unfold fieldStr at 1. simpl. apply fieldStr_from. Qed.

(** Rendering follows the order of the sequence, one piece per element. *)
Lemma fieldStr_app (l1 l2 : list Field) :
  fieldStr E (l1 ++ l2) = fieldStr E l1 +:+ fieldStr E l2.
Proof.
  induction l1 as [|f l1 IH]; simpl; [done|].
  by rewrite !fieldStr_cons, IH, string_app_assoc.
Qed.

(** ** The store invariant *)

Lemma heap_ok_lookup (h : Heap) (p : nat) (c : LoggerCell) :
  heap_ok h = true -> cells h !! p = Some c -> slice_ok h (fields c) = true.
Proof.
  unfold heap_ok. rewrite forallb_forall. intros Hall Hp.
  apply Hall. apply list_elem_of_In. by eapply list_elem_of_lookup_2.
Qed.

Lemma heap_ok_intro (h : Heap) :
  (forall c, c ∈ cells h -> slice_ok h (fields c) = true) -> heap_ok h = true.
Proof.
  intros Hall. unfold heap_ok. rewrite forallb_forall.
  intros c Hc. apply Hall. by apply list_elem_of_In.
Qed.

Lemma heap_ok_elem (h : Heap) (c : LoggerCell) :
  heap_ok h = true -> c ∈ cells h -> slice_ok h (fields c) = true.
Proof.
  unfold heap_ok. rewrite forallb_forall. intros Hall Hc.
  apply Hall. by apply list_elem_of_In.
Qed.

Lemma slice_ok_same_arrays (h h' : Heap) (s : Slice) :
  arrays h' = arrays h -> slice_ok h' s = slice_ok h s.
Proof. intros Ha. unfold slice_ok, array_at. by rewrite Ha. Qed.

Lemma empty_heap_ok (now : Z) : heap_ok (empty_heap now) = true.
Proof. done. Qed.

Lemma append_heap_ok (s s' : Slice) (xs : list Field) (h h' : Heap) :
  heap_ok h = true -> append E s xs h = (s', h') -> heap_ok h' = true.
Proof.
  intros Hok Happ. apply heap_ok_intro. intros c Hc.
  destruct (append_frame E _ _ _ _ _ Happ) as (_ & Hcells & _).
  rewrite Hcells in Hc.
  eapply append_slice_ok; [exact Happ|]. by apply heap_ok_elem.
Qed.

(** Allocating a struct whose slice is valid keeps the store valid. *)
Lemma alloc_cell_heap_ok (h : Heap) (c : LoggerCell) :
  heap_ok h = true -> slice_ok h (fields c) = true ->
  heap_ok (set_cells (cells h ++ [c]) h) = true.
Proof.
  intros Hok Hc. apply heap_ok_intro. intros c' Hc'. simpl in Hc'.
  rewrite (slice_ok_same_arrays h) by done.
  apply elem_of_app in Hc' as [Hc'|Hc'].
  - by apply heap_ok_elem.
  - apply list_elem_of_singleton in Hc'. by subst.
Qed.

Lemma Println_heap_ok (lg : log_Logger) (s : string) (h : Heap) :
  heap_ok (Println E lg s h) = heap_ok h.
Proof. done. Qed.

(** ** [formatMessage] *)

(** On a valid store the line is the prefix, the message, the bound fields
    of the struct and then the fields of the call, in this order. *)
Lemma formatMessage_line (c : LoggerCell) (lvl : LogLevel) (msg : string)
    (flds : list Field) (h : Heap) :
  slice_ok h (fields c) = true ->
  fst (formatMessage E c lvl msg flds h) =
  line_prefix E c lvl h +:+ msg +:+ fieldStr E (slice_view h (fields c) ++ flds).
Proof.
  intros Hok. unfold formatMessage, line_prefix.
  destruct (append E (fields c) flds h) as [all h1] eqn:Happ.
  rewrite (append_view E _ _ _ _ _ Hok Happ).
  destruct (kind c); simpl; by rewrite ?string_app_assoc.
Qed.

Lemma formatMessage_frame (c : LoggerCell) (lvl : LogLevel) (msg : string)
    (flds : list Field) (h : Heap) :
  let h1 := snd (formatMessage E c lvl msg flds h) in
  clock h1 = clock h /\ cells h1 = cells h /\ trace h1 = trace h.
Proof.
  unfold formatMessage.
  destruct (append E (fields c) flds h) as [all h1] eqn:Happ.
  destruct (append_frame E _ _ _ _ _ Happ) as (? & ? & ? & _).
  destruct (kind c); simpl; done.
Qed.

Lemma formatMessage_heap_ok (c : LoggerCell) (lvl : LogLevel) (msg : string)
    (flds : list Field) (h : Heap) :
  heap_ok h = true -> heap_ok (snd (formatMessage E c lvl msg flds h)) = true.
Proof.
  intros Hok. unfold formatMessage.
  destruct (append E (fields c) flds h) as [all h1] eqn:Happ.
  pose proof (append_heap_ok _ _ _ _ _ Hok Happ).
  destruct (kind c); simpl; done.
Qed.

(** The context is not read: structs that differ in [ctx] only format alike. *)
Lemma formatMessage_ctx (c : LoggerCell) (ctx' : Context) (lvl : LogLevel)
    (msg : string) (flds : list Field) (h : Heap) :
  formatMessage E (mkCell (kind c) (level c) (fields c) ctx' (logger c) (name c))
                lvl msg flds h
  = formatMessage E c lvl msg flds h.
Proof. done. Qed.

End Rendering.

(** ** Severity rendering *)

(** C9. [String()] is total and canonical: the six levels are declared in
    the order Debug, Info, Warn, Error, Fatal, Panic (values 0 to 5), each
    renders as its upper-case name, and every other integer renders as
    ["UNKNOWN"]. *)
Theorem LogLevel_String_canonical :
  [DebugLevel; InfoLevel; WarnLevel; ErrorLevel; FatalLevel; PanicLevel]
    = [0; 1; 2; 3; 4; 5] /\
  LogLevel_String <$> [DebugLevel; InfoLevel; WarnLevel; ErrorLevel; FatalLevel; PanicLevel]
    = ["DEBUG"; "INFO"; "WARN"; "ERROR"; "FATAL"; "PANIC"] /\
  forall l : LogLevel, l < 0 \/ 5 < l -> LogLevel_String l = "UNKNOWN".
Proof.
  split; [done|]. split; [done|].
  intros l Hl. unfold LogLevel_String.
  unfold DebugLevel, InfoLevel, WarnLevel, ErrorLevel, FatalLevel, PanicLevel.
  repeat match goal with
         | |- context [l =? ?k] => destruct (Z.eqb_spec l k); [lia|]
         end.
  done.
Qed.

Lemma LogLevel_String_canonical_witness :
  (999 < 0 \/ 5 < 999) /\ LogLevel_String 999 = "UNKNOWN".
Proof.
  split; [right; reflexivity|].
  apply (proj2 (proj2 LogLevel_String_canonical)). right; reflexivity.
Defined.

(** Rendering is injective on the declared levels: the names are distinct. *)
Lemma LogLevel_String_distinct (s1 s2 : Severity) :
  LogLevel_String (level_of s1) = LogLevel_String (level_of s2) -> s1 = s2.
Proof. destruct s1, s2; simpl; intros [=]; done. Qed.

(** ** The registry *)

Section Registry.
Context (E : GoEnv).

Lemma NewConsoleLogger_default (name : string) (h : Heap) :
  (let '(p, h1) := NewConsoleLogger E name [] h in Returns (Ptr p) h1)
  = fallback_console name h.
Proof. done. Qed.

Lemma RegisterProvider_GetProvider (f : LogFactory) (x : string) (P : LoggerProvider) :
  GetProvider (RegisterProvider f x P) x = Some P /\
  GetProvider (UnregisterProvider (RegisterProvider f x P) x) x = None.
Proof.
  unfold GetProvider, UnregisterProvider, RegisterProvider; simpl.
  by rewrite lookup_insert_eq, lookup_delete_eq.
Qed.

(** The fallback is not an entry of the map: with the requested and the
    default name both unregistered the console logger is still built. *)
Lemma fallback_survives_unregister (f : LogFactory) (name providerName : string)
    (h : Heap) :
  let f' := UnregisterProvider (UnregisterProvider f providerName) (defaultProvider f) in
  CreateLoggerWithProvider E f' name providerName h = fallback_console name h.
Proof.
  unfold CreateLoggerWithProvider, UnregisterProvider; simpl.
  destruct (decide (defaultProvider f = providerName)) as [->|Hne].
  - by rewrite !lookup_delete_eq.
  - rewrite (lookup_delete_ne _ (defaultProvider f) providerName) by done.
    by rewrite !lookup_delete_eq.
Qed.

(** The provider a call resolves to: the one under [providerName], or the
    one under the default name when [providerName] is not registered. *)
Lemma CreateLoggerWithProvider_cases (f : LogFactory) (name providerName : string)
    (h : Heap) :
  CreateLoggerWithProvider E f name providerName h =
  match providers f !! providerName with
  | Some provider => Create provider name h
  | None =>
      match providers f !! defaultProvider f with
      | Some provider => Create provider name h
      | None => fallback_console name h
      end
  end.
Proof. done. Qed.

(** C1 (amended). [CreateLoggerWithProvider] resolves a provider and calls
    its [Create]: the provider registered under [providerName]; when that
    name is not registered, the provider under the default name; when that
    one is not registered either, the call returns [NewConsoleLogger(name)].
    The call returns a logger whenever the provider it resolves to is an
    implementation whose [Create] returns, as the console and std providers'
    do; the registry does not check what was registered, and with the nil
    value under the resolved name the call panics. *)
Theorem CreateLoggerWithProvider_resolves (f : LogFactory) (name providerName : string)
    (h : Heap) :
  (forall provider, providers f !! providerName = Some provider ->
     CreateLoggerWithProvider E f name providerName h = Create provider name h) /\
  (forall provider, providers f !! providerName = None ->
     providers f !! defaultProvider f = Some provider ->
     CreateLoggerWithProvider E f name providerName h = Create provider name h) /\
  (providers f !! providerName = None ->
   providers f !! defaultProvider f = None ->
     CreateLoggerWithProvider E f name providerName h = fallback_console name h /\
     (let '(p, h1) := NewConsoleLogger E name [] h in Returns (Ptr p) h1)
       = fallback_console name h) /\
  (forall provider,
     match providers f !! providerName with
     | Some p => Some p
     | None => providers f !! defaultProvider f
     end = Some provider ->
     (exists l h', Create provider name h = Returns l h') ->
     exists l h', CreateLoggerWithProvider E f name providerName h = Returns l h') /\
  Create (ConsoleLoggerProvider E) name h = fallback_console name h /\
  Create (StdLoggerProvider E) name h =
    Returns (Ptr (length (cells h)))
      (set_cells (cells h ++ [mkCell Std InfoLevel make_empty Background
                                     (mkLog Stdout LstdFlags) name]) h) /\
  (providers f !! providerName = Some nilProvider ->
     CreateLoggerWithProvider E f name providerName h = Panics nil_dereference h) /\
  (providers f !! providerName = None ->
   providers f !! defaultProvider f = Some nilProvider ->
     CreateLoggerWithProvider E f name providerName h = Panics nil_dereference h).
Proof.
  rewrite CreateLoggerWithProvider_cases.
  split; [by intros provider ->|].
  split; [by intros provider -> ->|].
  split; [by intros -> ->|].
  split.
  { intros provider Hres Hret.
    destruct (providers f !! providerName) as [p|].
    - by injection Hres as ->.
    - by rewrite Hres. }
  split; [done|]. split; [done|].
  split; [by intros ->|by intros -> ->].
Qed.

(** C1 (as stated, refuted). [RegisterProvider] stores the nil value, the
    lookup finds the key, and [CreateLoggerWithProvider] panics on it: under
    the requested name, and under the default name when the requested name
    is not registered. *)
Lemma nil_provider_makes_resolution_panic :
  CreateLoggerWithProvider Sample.env
      (RegisterProvider NewLogFactory "x" nilProvider) "svc" "x" (empty_heap 0)
    = Panics nil_dereference (empty_heap 0) /\
  CreateLoggerWithProvider Sample.env
      (RegisterProvider Sample.registry "console" nilProvider) "svc" "does-not-exist"
      (empty_heap 0)
    = Panics nil_dereference (empty_heap 0) /\
  ~ (exists l h',
       CreateLoggerWithProvider Sample.env
           (RegisterProvider NewLogFactory "x" nilProvider) "svc" "x" (empty_heap 0)
         = Returns l h').
Proof.
  assert (CreateLoggerWithProvider Sample.env
            (RegisterProvider NewLogFactory "x" nilProvider) "svc" "x" (empty_heap 0)
          = Panics nil_dereference (empty_heap 0)) as H1 by reflexivity.
  split; [exact H1|]. split; [reflexivity|].
  intros (l & h' & H). rewrite H1 in H. discriminate H.
Qed.

(** [CreateLogger] resolves the default provider. *)
Lemma CreateLogger_default (f : LogFactory) (name : string) (h : Heap) :
  CreateLogger E f name h =
  match providers f !! defaultProvider f with
  | Some provider => Create provider name h
  | None => fallback_console name h
  end.
Proof.
  unfold CreateLogger, CreateLoggerWithProvider.
  by destruct (providers f !! defaultProvider f).
Qed.

Lemma CreateLoggerWithConfig_empty_default (f : LogFactory) (name : string) (h : Heap) :
  CreateLoggerWithConfig E f name ∅ h =
  match providers f !! defaultProvider f with
  | Some provider => CreateWithConfig provider name ∅ h
  | None => fallback_console name h
  end.
Proof.
  unfold CreateLoggerWithConfig. rewrite lookup_empty; simpl.
  by destruct (providers f !! defaultProvider f).
Qed.

(** With every key missing the console provider passes the options the
    constructor starts from. *)
Lemma Console_CreateWithConfig_empty (name : string) (h : Heap) :
  CreateWithConfig (ConsoleLoggerProvider E) name ∅ h
  = Create (ConsoleLoggerProvider E) name h.
Proof. done. Qed.

Lemma Std_CreateWithConfig_empty (name : string) (h : Heap) :
  CreateWithConfig (StdLoggerProvider E) name ∅ h
  = Create (StdLoggerProvider E) name h.
Proof. done. Qed.

(** C5. With an empty configuration map [CreateLoggerWithConfig] resolves
    the default provider, as [CreateLogger] does; the console provider's
    [CreateWithConfig] with all keys missing (level Info, format "text",
    output stdout) builds the logger its [Create] builds; so with the console
    provider as default, or with no provider under the default name, both
    calls give the same logger and store. *)
Theorem CreateLoggerWithConfig_empty (f : LogFactory) (name : string) (h : Heap) :
  (CreateLoggerWithConfig E f name ∅ h =
     match providers f !! defaultProvider f with
     | Some provider => CreateWithConfig provider name ∅ h
     | None => fallback_console name h
     end) /\
  (CreateLogger E f name h =
     match providers f !! defaultProvider f with
     | Some provider => Create provider name h
     | None => fallback_console name h
     end) /\
  (config_level ∅ = InfoLevel /\ config_format ∅ = "text" /\
   config_outputPath ∅ = "stdout") /\
  CreateWithConfig (ConsoleLoggerProvider E) name ∅ h = fallback_console name h /\
  Create (ConsoleLoggerProvider E) name h = fallback_console name h /\
  (providers f !! defaultProvider f = Some (ConsoleLoggerProvider E) ->
   CreateLoggerWithConfig E f name ∅ h = CreateLogger E f name h) /\
  (providers f !! defaultProvider f = None ->
   CreateLoggerWithConfig E f name ∅ h = CreateLogger E f name h).
Proof.
  split; [apply CreateLoggerWithConfig_empty_default|].
  split; [apply CreateLogger_default|].
  split; [done|]. split; [done|]. split; [done|].
  split; intros Hdef;
    by rewrite CreateLoggerWithConfig_empty_default, CreateLogger_default, Hdef.
Qed.

(** The same agreement for any default provider whose two methods agree on
    the empty map, and for an unregistered default. *)
Lemma CreateLoggerWithConfig_empty_agree (f : LogFactory) (name : string) (h : Heap) :
  match providers f !! defaultProvider f with
  | Some provider => CreateWithConfig provider name ∅ h = Create provider name h
  | None => True
  end ->
  CreateLoggerWithConfig E f name ∅ h = CreateLogger E f name h.
Proof.
  rewrite CreateLoggerWithConfig_empty_default, CreateLogger_default.
  by destruct (providers f !! defaultProvider f).
Qed.

End Registry.

(** ** Emission *)

Section Emission.
Context (E : GoEnv).

Lemma Println_trace (lg : log_Logger) (s : string) (h : Heap) :
  trace (Println E lg s h) = trace h ++ [record_of E lg s h].
Proof. done. Qed.

Lemma record_of_clock (lg : log_Logger) (s : string) (h h' : Heap) :
  clock h' = clock h -> record_of E lg s h' = record_of E lg s h.
Proof. unfold record_of. by intros ->. Qed.

Lemma line_prefix_clock (c : LoggerCell) (lvl : LogLevel) (h h' : Heap) :
  clock h' = clock h -> line_prefix E c lvl h' = line_prefix E c lvl h.
Proof. unfold line_prefix. by intros ->. Qed.

Lemma written_same {A} (o : Outcome A) (h : Heap) :
  trace (heap_of o) = trace h -> written o h = [].
Proof. unfold written. intros ->. by rewrite drop_all. Qed.

Lemma written_one {A} (o : Outcome A) (h : Heap) (e : Sink * string) :
  trace (heap_of o) = trace h ++ [e] -> written o h = [e].
Proof. unfold written. intros ->. by rewrite drop_app_length. Qed.

Lemma emits_written {A} (o : Outcome A) (h : Heap) (e : Sink * string) :
  trace (heap_of o) = trace h ++ [e] -> emits o h.
Proof. intros H. by exists e. Qed.

Lemma not_emits_same {A} (o : Outcome A) (h : Heap) :
  trace (heap_of o) = trace h -> ~ emits o h.
Proof.
  intros Hsame [e He]. rewrite Hsame in He.
  apply (f_equal length) in He. rewrite length_app in He. simpl in He. lia.
Qed.

(** Every unformatted method is its level test around [fire]. *)
Lemma emit_unfold (s : Severity) (p : nat) (c : LoggerCell) (msg : string)
    (flds : list Field) (h : Heap) :
  cells h !! p = Some c ->
  emit E s p msg flds h =
  if level c <=? level_of s then fire E s c msg flds h else Returns tt h.
Proof.
  intros Hc.
  destruct s; unfold emit, Debug, Info, Warn, Error, Fatal, Panic, deref, fire;
    rewrite Hc; simpl; case_match; try done;
    by destruct (formatMessage E c _ msg flds h).
Qed.

(** Every formatted method is the unformatted one on the substituted
    message, with no fields from the call. *)
Lemma emitf_emit (s : Severity) (p : nat) (format : string) (args : list any) (h : Heap) :
  emitf E s p format args h = emit E s p (Sprintf E format args) [] h.
Proof. by destruct s. Qed.

Lemma fire_trace (s : Severity) (c : LoggerCell) (msg : string)
    (flds : list Field) (h : Heap) :
  slice_ok h (fields c) = true ->
  trace (heap_of (fire E s c msg flds h))
  = trace h ++ [record_of E (logger c) (line_of E c (level_of s) msg flds h) h].
Proof.
  intros Hok. unfold fire.
  pose proof (formatMessage_line E c (level_of s) msg flds h Hok) as Hline.
  pose proof (formatMessage_frame E c (level_of s) msg flds h) as Hframe.
  destruct (formatMessage E c (level_of s) msg flds h) as [line h1].
  simpl in Hline, Hframe. destruct Hframe as (Hclock & _ & Htrace).
  assert (trace (Println E (logger c) line h1)
          = trace h ++ [record_of E (logger c) (line_of E c (level_of s) msg flds h) h])
    as Hgoal.
  { rewrite Println_trace, Htrace, (record_of_clock _ _ h h1) by done.
    by rewrite Hline. }
  by destruct s.
Qed.

Lemma fire_outcome (s : Severity) (c : LoggerCell) (msg : string)
    (flds : list Field) (h : Heap) :
  match s with
  | SFatal => exists h', fire E s c msg flds h = Exits 1 h'
  | SPanic => exists line h1,
      formatMessage E c PanicLevel msg flds h = (line, h1) /\
      fire E s c msg flds h = Panics (VString line) (Println E (logger c) line h1)
  | _ => exists h', fire E s c msg flds h = Returns tt h'
  end.
Proof.
  unfold fire. destruct s; simpl;
    destruct (formatMessage E c _ msg flds h) as [line h1]; eauto.
Qed.

Lemma fire_heap_ok (s : Severity) (c : LoggerCell) (msg : string)
    (flds : list Field) (h : Heap) :
  heap_ok h = true -> heap_ok (heap_of (fire E s c msg flds h)) = true.
Proof.
  intros Hok. unfold fire.
  pose proof (formatMessage_heap_ok E c (level_of s) msg flds h Hok) as H1.
  destruct (formatMessage E c (level_of s) msg flds h) as [line h1].
  by destruct s.
Qed.

(** What a leveled call writes: one record when the threshold is at most
    the level of the call, nothing otherwise. *)
Lemma emit_written (s : Severity) (p : nat) (c : LoggerCell) (msg : string)
    (flds : list Field) (h : Heap) :
  cells h !! p = Some c ->
  slice_ok h (fields c) = true ->
  written (emit E s p msg flds h) h =
  if level c <=? level_of s
  then [record_of E (logger c) (line_of E c (level_of s) msg flds h) h]
  else [].
Proof.
  intros Hc Hok. rewrite (emit_unfold s p c) by done.
  case_match.
  - apply written_one. by apply fire_trace.
  - by apply written_same.
Qed.

End Emission.

(** ** Gating *)

Section Gating.
Context (E : GoEnv).

Lemma fire_emits (s : Severity) (c : LoggerCell) (msg : string)
    (flds : list Field) (h : Heap) :
  emits (fire E s c msg flds h) h.
Proof.
  unfold fire.
  pose proof (formatMessage_frame E c (level_of s) msg flds h) as Hframe.
  destruct (formatMessage E c (level_of s) msg flds h) as [line h1].
  simpl in Hframe. destruct Hframe as (_ & _ & Htrace).
  exists (record_of E (logger c) line h1).
  destruct s; simpl; by rewrite Htrace.
Qed.

Lemma emit_emits_iff (s : Severity) (p : nat) (c : LoggerCell) (msg : string)
    (flds : list Field) (h : Heap) :
  cells h !! p = Some c ->
  emits (emit E s p msg flds h) h <-> level c <= level_of s.
Proof.
  intros Hc. rewrite (emit_unfold E s p c) by done.
  destruct (Z.leb_spec (level c) (level_of s)) as [Hle|Hgt].
  - split; [done|]. intros _. apply fire_emits.
  - split; [|lia]. intros He. by apply not_emits_same in He.
Qed.

Lemma IsEnabled_unfold (s : Severity) (p : nat) (c : LoggerCell) (h : Heap) :
  cells h !! p = Some c ->
  IsEnabled s p h = Returns (level c <=? level_of s) h.
Proof.
  intros Hc.
  destruct s; unfold IsEnabled, IsDebugEnabled, IsInfoEnabled, IsWarnEnabled,
    IsErrorEnabled, IsFatalEnabled, IsPanicEnabled, deref; by rewrite Hc.
Qed.

Lemma SetLevel_sets (p : nat) (c : LoggerCell) (X : LogLevel) (h : Heap) :
  cells h !! p = Some c ->
  exists h',
    SetLevel p X h = Returns tt h' /\
    cells h' !! p = Some (mkCell (kind c) X (fields c) (ctx c) (logger c) (name c)) /\
    arrays h' = arrays h /\ trace h' = trace h /\ clock h' = clock h.
Proof.
  intros Hc. unfold SetLevel, deref. rewrite Hc.
  eexists; split; [done|]. simpl. split; [|done].
  apply list_lookup_insert_eq. by eapply lookup_lt_Some.
Qed.

(** C2. For a handle whose threshold was set to [X], the call at the level
    of [Y] (plain or formatted) emits exactly when [Y >= X], and the query
    [IsYEnabled] answers [true] exactly when [Y >= X]: the queries agree with
    the gating of the emission methods on every pair of levels. *)
Theorem gating_agrees (p : nat) (c : LoggerCell) (X : LogLevel) (Y : Severity)
    (msg : string) (flds : list Field) (format : string) (args : list any)
    (h : Heap) :
  cells h !! p = Some c ->
  exists h',
    SetLevel p X h = Returns tt h' /\
    GetLevel p h' = Returns X h' /\
    (emits (emit E Y p msg flds h') h' <-> level_of Y >= X) /\
    (emits (emitf E Y p format args h') h' <-> level_of Y >= X) /\
    (IsEnabled Y p h' = Returns true h' <-> level_of Y >= X) /\
    (IsEnabled Y p h' = Returns false h' <-> ~ level_of Y >= X).
Proof.
  intros Hc.
  destruct (SetLevel_sets p c X h Hc) as (h' & Hset & Hc' & _).
  exists h'. split; [done|].
  split; [by unfold GetLevel, deref; rewrite Hc'|].
  rewrite emitf_emit.
  rewrite !(emit_emits_iff _ _ _ _ _ _ Hc'), (IsEnabled_unfold _ _ _ _ Hc'); simpl.
  destruct (Z.leb_spec X (level_of Y)); repeat split; intros; try lia; try done.
Qed.

(** The 36 pairs of declared levels, by evaluation of the level tests. *)
Lemma gating_table :
  (fun X => (fun Y => level_of X <=? level_of Y) <$> all_severities) <$> all_severities
  = [ [true; true; true; true; true; true];
      [false; true; true; true; true; true];
      [false; false; true; true; true; true];
      [false; false; false; true; true; true];
      [false; false; false; false; true; true];
      [false; false; false; false; false; true] ].
Proof. done. Qed.

(** ** Fatal and Panic *)

(** C6 (amended). [Fatal]/[Fatalf] and [Panic]/[Panicf] are gated like the
    other levels. With the threshold at most [FatalLevel], [Fatal]/[Fatalf]
    emit the record and then end the process with exit code 1; with the
    threshold at most [PanicLevel] (every declared threshold), [Panic]/[Panicf]
    emit the record and then panic with the whole formatted line. With the
    threshold above the level of the call, the call writes nothing, leaves
    the store as it was and returns. *)
Theorem Fatal_Panic_gated (p : nat) (c : LoggerCell) (msg : string)
    (flds : list Field) (format : string) (args : list any) (h : Heap) :
  cells h !! p = Some c ->
  (level c <= FatalLevel ->
     (exists line h1,
        formatMessage E c FatalLevel msg flds h = (line, h1) /\
        Fatal E p msg flds h = Exits 1 (Println E (logger c) line h1)) /\
     (exists line h1,
        formatMessage E c FatalLevel (Sprintf E format args) [] h = (line, h1) /\
        Fatalf E p format args h = Exits 1 (Println E (logger c) line h1)) /\
     emits (Fatal E p msg flds h) h /\ emits (Fatalf E p format args h) h) /\
  (FatalLevel < level c ->
     Fatal E p msg flds h = Returns tt h /\ Fatalf E p format args h = Returns tt h) /\
  (level c <= PanicLevel ->
     (exists line h1,
        formatMessage E c PanicLevel msg flds h = (line, h1) /\
        Panic E p msg flds h = Panics (VString line) (Println E (logger c) line h1)) /\
     (exists line h1,
        formatMessage E c PanicLevel (Sprintf E format args) [] h = (line, h1) /\
        Panicf E p format args h = Panics (VString line) (Println E (logger c) line h1)) /\
     emits (Panic E p msg flds h) h /\ emits (Panicf E p format args h) h) /\
  (PanicLevel < level c ->
     Panic E p msg flds h = Returns tt h /\ Panicf E p format args h = Returns tt h).
Proof.
  intros Hc.
  pose proof (emit_emits_iff SFatal p c msg flds h Hc) as HeF.
  pose proof (emit_emits_iff SFatal p c (Sprintf E format args) [] h Hc) as HeFf.
  pose proof (emit_emits_iff SPanic p c msg flds h Hc) as HeP.
  pose proof (emit_emits_iff SPanic p c (Sprintf E format args) [] h Hc) as HePf.
  simpl in HeF, HeFf, HeP, HePf.
  unfold Fatal, Fatalf, Panic, Panicf, deref in *. rewrite Hc in *.
  split; [|split; [|split]].
  - intros Hle. apply Z.leb_le in Hle as Hb. rewrite Hb in *.
    destruct (formatMessage E c FatalLevel msg flds h) as [l1 h1].
    destruct (formatMessage E c FatalLevel (Sprintf E format args) [] h) as [l2 h2].
    repeat split; eauto; [by apply HeF|by apply HeFf].
  - intros Hgt. apply Z.leb_gt in Hgt as Hb. by rewrite Hb.
  - intros Hle. apply Z.leb_le in Hle as Hb. rewrite Hb in *.
    destruct (formatMessage E c PanicLevel msg flds h) as [l1 h1].
    destruct (formatMessage E c PanicLevel (Sprintf E format args) [] h) as [l2 h2].
    repeat split; eauto; [by apply HeP|by apply HePf].
  - intros Hgt. apply Z.leb_gt in Hgt as Hb. by rewrite Hb.
Qed.

End Gating.

(** ** Formatted variants *)

Section Formatted.
Context (E : GoEnv).

(** C7. Each formatted method ([Debugf] ... [Panicf]) is the unformatted
    method of its level called with the message [Sprintf(format, args)] and
    no fields: it passes the same level test, and the record it writes is
    the prefix, the substituted message and the handle's own bound fields,
    with nothing added by the call. *)
Theorem formatted_variants (Y : Severity) (p : nat) (c : LoggerCell)
    (format : string) (args : list any) (h : Heap) :
  cells h !! p = Some c ->
  slice_ok h (fields c) = true ->
  emitf E Y p format args h = emit E Y p (Sprintf E format args) [] h /\
  (emits (emitf E Y p format args h) h <-> level c <= level_of Y) /\
  (forall msg flds, emits (emit E Y p msg flds h) h <-> level c <= level_of Y) /\
  written (emitf E Y p format args h) h =
    (if level c <=? level_of Y
     then [record_of E (logger c)
             (line_prefix E c (level_of Y) h +:+ Sprintf E format args
                +:+ fieldStr E (slice_view h (fields c))) h]
     else []).
Proof.
  intros Hc Hok. rewrite emitf_emit.
  split; [done|]. split; [by apply emit_emits_iff|].
  split; [intros; by apply emit_emits_iff|].
  rewrite (emit_written E Y p c) by done.
  unfold line_of. by rewrite app_nil_r.
Qed.

End Formatted.

(** ** Enrichment *)

Section Enrichment.
Context (E : GoEnv).

(** [WithFields] allocates one struct: a copy of the receiver whose slice
    shows the receiver's fields followed by the new ones. The receiver's
    struct and what its slice shows are as before. *)
Lemma WithFields_spec (p : nat) (c : LoggerCell) (flds : list Field) (h : Heap) :
  heap_ok h = true ->
  cells h !! p = Some c ->
  exists h2 fs,
    WithFields E p flds h = Returns (Ptr (length (cells h))) h2 /\
    cells h2 = cells h ++ [mkCell (kind c) (level c) fs (ctx c) (logger c) (name c)] /\
    slice_view h2 fs = slice_view h (fields c) ++ flds /\
    slice_view h2 (fields c) = slice_view h (fields c) /\
    clock h2 = clock h /\ trace h2 = trace h /\
    heap_ok h2 = true.
Proof.
  intros Hok Hc. unfold WithFields, deref. rewrite Hc.
  pose proof (heap_ok_lookup h p c Hok Hc) as Hs.
  destruct (append E (fields c) flds h) as [fs h1] eqn:Happ.
  destruct (append_frame E _ _ _ _ _ Happ) as (Hclock & Hcells & Htrace & _).
  exists (set_cells (cells h1 ++ [mkCell (kind c) (level c) fs (ctx c) (logger c) (name c)]) h1), fs.
  rewrite Hcells. split; [done|]. split; [done|].
  split; [by apply (append_view E _ _ _ _ _ Hs Happ)|].
  split; [by apply (append_keeps_receiver E _ _ _ _ _ Hs Happ)|].
  split; [done|]. split; [done|].
  rewrite <- Hcells. apply alloc_cell_heap_ok.
  - by eapply append_heap_ok.
  - by eapply append_new_slice_ok.
Qed.

(** A freshly allocated address differs from every address in use. *)
Lemma fresh_address (h : Heap) (p : nat) (c : LoggerCell) :
  cells h !! p = Some c ->
  length (cells h) <> p /\ cells h !! length (cells h) = None.
Proof.
  intros Hc. apply lookup_lt_Some in Hc.
  split; [lia|]. by apply lookup_ge_None_2.
Qed.

(** What a handle writes depends on the store through its struct, what its
    slice shows, and the clock. *)
Lemma emit_written_same (Y : Severity) (p p' : nat) (c c' : LoggerCell)
    (msg : string) (flds : list Field) (h h' : Heap) :
  cells h !! p = Some c -> cells h' !! p' = Some c' ->
  slice_ok h (fields c) = true -> slice_ok h' (fields c') = true ->
  kind c' = kind c -> level c' = level c -> logger c' = logger c ->
  name c' = name c -> clock h' = clock h ->
  slice_view h' (fields c') = slice_view h (fields c) ->
  written (emit E Y p' msg flds h') h' = written (emit E Y p msg flds h) h.
Proof.
  intros Hc Hc' Hok Hok' Hk Hl Hlg Hn Hclock Hview.
  rewrite (emit_written E Y p c), (emit_written E Y p' c') by done.
  rewrite Hl, Hlg. unfold line_of, line_prefix.
  by rewrite Hk, Hn, Hclock, Hview, (record_of_clock E _ _ h h').
Qed.

(** C3. [WithField] is copy-on-write: it returns the address of a newly
    allocated struct, different from the receiver; both handles report the
    receiver's level, before and after the call; the receiver's struct and
    its bound-field sequence are unchanged; and what the receiver emits
    afterwards is what it emitted before the call, its own fields followed by
    the fields of the call, without the new field. *)
Theorem WithField_copy_on_write (p : nat) (c : LoggerCell) (k : string) (v : any)
    (h : Heap) :
  heap_ok h = true ->
  cells h !! p = Some c ->
  exists p2 h2 c2,
    WithField E p k v h = Returns (Ptr p2) h2 /\
    p2 <> p /\ cells h !! p2 = None /\ cells h2 !! p2 = Some c2 /\
    GetLevel p h = Returns (level c) h /\
    GetLevel p h2 = Returns (level c) h2 /\
    GetLevel p2 h2 = Returns (level c) h2 /\
    cells h2 !! p = Some c /\
    slice_view h2 (fields c) = slice_view h (fields c) /\
    slice_view h2 (fields c2) = slice_view h (fields c) ++ [mkField k v] /\
    forall (Y : Severity) (msg : string) (flds : list Field),
      written (emit E Y p msg flds h2) h2 = written (emit E Y p msg flds h) h /\
      written (emit E Y p msg flds h2) h2 =
        if level c <=? level_of Y
        then [record_of E (logger c)
                (line_prefix E c (level_of Y) h +:+ msg
                   +:+ fieldStr E (slice_view h (fields c) ++ flds)) h]
        else [].
Proof.
  intros Hok Hc. unfold WithField.
  destruct (WithFields_spec p c [mkField k v] h Hok Hc)
    as (h2 & fs & Hcall & Hcells & Hnew & Hold & Hclock & Htrace & Hok2).
  destruct (fresh_address h p c Hc) as [Hne Hfresh].
  assert (cells h2 !! p = Some c) as Hc2
    by (rewrite Hcells; apply lookup_app_l_Some; done).
  pose proof (heap_ok_lookup h p c Hok Hc) as Hs.
  pose proof (heap_ok_lookup h2 p c Hok2 Hc2) as Hs2.
  eexists _, h2, _. split; [exact Hcall|].
  split; [done|]. split; [done|].
  split; [by rewrite Hcells, lookup_app_r, Nat.sub_diag|].
  split; [by unfold GetLevel, deref; rewrite Hc|].
  split; [by unfold GetLevel, deref; rewrite Hc2|].
  split; [by unfold GetLevel, deref;
            rewrite Hcells, lookup_app_r, Nat.sub_diag|].
  split; [done|]. split; [done|]. split; [done|].
  intros Y msg flds.
  assert (written (emit E Y p msg flds h2) h2 = written (emit E Y p msg flds h) h)
    as Hsame by (by apply (emit_written_same Y p p c c)).
  split; [done|].
  rewrite Hsame. by rewrite (emit_written E Y p c).
Qed.

(** C8. Chained enrichment accumulates in call order: after
    [L.WithField(k1,v1).WithField(k2,v2)] the last handle's sequence is
    that of [L], then the first pair, then the second (both kept also when
    [k1 = k2]), and its record renders the bound fields in this order and
    the fields of the call after them. *)
Theorem chained_WithField_in_order (p : nat) (c : LoggerCell) (k1 k2 : string)
    (v1 v2 : any) (h : Heap) :
  heap_ok h = true ->
  cells h !! p = Some c ->
  exists p1 h1 p2 h2 c2,
    WithField E p k1 v1 h = Returns (Ptr p1) h1 /\
    WithField E p1 k2 v2 h1 = Returns (Ptr p2) h2 /\
    cells h2 !! p2 = Some c2 /\
    slice_view h2 (fields c2)
      = slice_view h (fields c) ++ [mkField k1 v1; mkField k2 v2] /\
    forall (Y : Severity) (msg : string) (flds : list Field),
      written (emit E Y p2 msg flds h2) h2 =
        if level c <=? level_of Y
        then [record_of E (logger c)
                (line_prefix E c (level_of Y) h +:+ msg
                   +:+ (fieldStr E (slice_view h (fields c))
                        +:+ (" " +:+ k1 +:+ "=" +:+ fmt_v E v1)
                        +:+ (" " +:+ k2 +:+ "=" +:+ fmt_v E v2)
                        +:+ fieldStr E flds)) h]
        else [].
Proof.
  intros Hok Hc. unfold WithField.
  destruct (WithFields_spec p c [mkField k1 v1] h Hok Hc)
    as (h1 & fs1 & Hcall1 & Hcells1 & Hnew1 & _ & Hclock1 & _ & Hok1).
  set (c1 := mkCell (kind c) (level c) fs1 (ctx c) (logger c) (name c)) in *.
  assert (cells h1 !! length (cells h) = Some c1) as Hc1
    by (by rewrite Hcells1, lookup_app_r, Nat.sub_diag).
  destruct (WithFields_spec _ c1 [mkField k2 v2] h1 Hok1 Hc1)
    as (h2 & fs2 & Hcall2 & Hcells2 & Hnew2 & _ & Hclock2 & _ & Hok2).
  set (c2 := mkCell (kind c1) (level c1) fs2 (ctx c1) (logger c1) (name c1)) in *.
  assert (cells h2 !! length (cells h1) = Some c2) as Hc2
    by (by rewrite Hcells2, lookup_app_r, Nat.sub_diag).
  assert (slice_view h2 (fields c2)
          = slice_view h (fields c) ++ [mkField k1 v1; mkField k2 v2]) as Hview.
  { simpl. rewrite Hnew2. simpl. rewrite Hnew1. by rewrite <- app_assoc. }
  exists (length (cells h)), h1, (length (cells h1)), h2, c2.
  split; [done|]. split; [done|]. split; [done|]. split; [done|].
  intros Y msg flds.
  rewrite (emit_written E Y _ c2) by (by eauto using heap_ok_lookup).
  simpl level. case_match; [|done].
  unfold line_of. rewrite Hview.
  rewrite (line_prefix_clock E c2 _ h h2) by congruence.
  change (line_prefix E c2 (level_of Y) h) with (line_prefix E c (level_of Y) h).
  rewrite (record_of_clock E _ _ h h2) by congruence.
  rewrite !fieldStr_app, !fieldStr_cons, fieldStr_nil.
  unfold fmt_field; simpl. by rewrite !string_app_assoc, ?string_app_empty_r.
Qed.

(** C10. [WithContext] allocates a copy of the receiver's struct that
    differs in the [ctx] field only, for the console and the std adapter
    alike; formatting does not read [ctx], so every emission method, plain or
    formatted, does on the new handle what it does on the receiver. *)
Theorem WithContext_inert (p : nat) (c : LoggerCell) (ctx' : Context) (h : Heap) :
  cells h !! p = Some c ->
  exists p2 h2,
    WithContext p ctx' h = Returns (Ptr p2) h2 /\
    p2 <> p /\
    cells h2 = cells h ++ [mkCell (kind c) (level c) (fields c) ctx' (logger c) (name c)] /\
    cells h2 !! p = Some c /\
    cells h2 !! p2 = Some (mkCell (kind c) (level c) (fields c) ctx' (logger c) (name c)) /\
    arrays h2 = arrays h /\ trace h2 = trace h /\ clock h2 = clock h /\
    (forall lvl msg flds h',
       formatMessage E (mkCell (kind c) (level c) (fields c) ctx' (logger c) (name c))
                     lvl msg flds h'
       = formatMessage E c lvl msg flds h') /\
    (forall Y msg flds h', cells h' !! p = Some c ->
       cells h' !! p2 = Some (mkCell (kind c) (level c) (fields c) ctx' (logger c) (name c)) ->
       emit E Y p2 msg flds h' = emit E Y p msg flds h') /\
    (forall Y msg flds, emit E Y p2 msg flds h2 = emit E Y p msg flds h2) /\
    (forall Y format args, emitf E Y p2 format args h2 = emitf E Y p format args h2).
Proof.
  intros Hc. unfold WithContext, deref. rewrite Hc.
  destruct (fresh_address h p c Hc) as [Hne _].
  set (c2 := mkCell (kind c) (level c) (fields c) ctx' (logger c) (name c)).
  set (h2 := set_cells (cells h ++ [c2]) h).
  assert (cells h2 !! p = Some c) as Hp by (by apply lookup_app_l_Some).
  assert (cells h2 !! length (cells h) = Some c2) as Hp2
    by (simpl; by rewrite lookup_app_r, Nat.sub_diag).
  assert (forall Y msg flds h', cells h' !! p = Some c ->
            cells h' !! length (cells h) = Some c2 ->
            emit E Y (length (cells h)) msg flds h' = emit E Y p msg flds h') as Hsame.
  { intros Y msg flds h' H1 H2.
    by rewrite (emit_unfold E Y _ c2), (emit_unfold E Y p c). }
  exists (length (cells h)), h2.
  repeat (split; [done|]).
  split; [intros; by apply Hsame|].
  intros Y format args. rewrite !emitf_emit. by apply Hsame.
Qed.

End Enrichment.

(** ** The store invariant is kept by every operation *)

Section Invariant.
Context (E : GoEnv).

Lemma make_empty_ok (h : Heap) : slice_ok h make_empty = true.
Proof. done. Qed.

Lemma NewConsoleLogger_heap_ok (name : string) (opts : list Option) (h : Heap) :
  heap_ok h = true -> heap_ok (snd (NewConsoleLogger E name opts h)) = true.
Proof. intros Hok. by apply alloc_cell_heap_ok. Qed.

Lemma NewStdLogger_heap_ok (name : string) (opts : list Option) (h : Heap) :
  heap_ok h = true -> heap_ok (snd (NewStdLogger E name opts h)) = true.
Proof. intros Hok. by apply alloc_cell_heap_ok. Qed.

Lemma SetLevel_heap_ok (p : nat) (lvl : LogLevel) (h : Heap) :
  heap_ok h = true -> heap_ok (heap_of (SetLevel p lvl h)) = true.
Proof.
  intros Hok. unfold SetLevel, deref.
  destruct (cells h !! p) as [c|] eqn:Hc; [|done]. simpl.
  apply heap_ok_intro. intros c' Hc'. simpl in Hc'.
  rewrite (slice_ok_same_arrays h) by done.
  apply list_elem_of_lookup in Hc' as [i Hi].
  destruct (decide (i = p)) as [->|Hne].
  - rewrite list_lookup_insert_eq in Hi by (by eapply lookup_lt_Some).
    injection Hi as <-. simpl. by eapply heap_ok_lookup.
  - rewrite list_lookup_insert_ne in Hi by done. by eapply heap_ok_lookup.
Qed.

Lemma WithContext_heap_ok (p : nat) (ctx' : Context) (h : Heap) :
  heap_ok h = true -> heap_ok (heap_of (WithContext p ctx' h)) = true.
Proof.
  intros Hok. unfold WithContext, deref.
  destruct (cells h !! p) as [c|] eqn:Hc; [|done]. simpl.
  apply alloc_cell_heap_ok; [done|]. simpl. by eapply heap_ok_lookup.
Qed.

Lemma WithFields_heap_ok (p : nat) (flds : list Field) (h : Heap) :
  heap_ok h = true -> heap_ok (heap_of (WithFields E p flds h)) = true.
Proof.
  intros Hok. destruct (cells h !! p) as [c|] eqn:Hc.
  - destruct (WithFields_spec E p c flds h Hok Hc) as (h2 & fs & -> & _ & _ & _ & _ & _ & H2).
    done.
  - unfold WithFields, deref. by rewrite Hc.
Qed.

Lemma emit_heap_ok (Y : Severity) (p : nat) (msg : string) (flds : list Field) (h : Heap) :
  heap_ok h = true -> heap_ok (heap_of (emit E Y p msg flds h)) = true.
Proof.
  intros Hok. destruct (cells h !! p) as [c|] eqn:Hc.
  - rewrite (emit_unfold E Y p c) by done. case_match; [|done].
    by apply fire_heap_ok.
  - destruct Y; unfold emit, Debug, Info, Warn, Error, Fatal, Panic, deref;
      by rewrite Hc.
Qed.

End Invariant.

(** ** The global accessor *)

Section Global.
Context (E : GoEnv) (ZapLoggerProvider LogrusLoggerProvider : LoggerProvider).

(** After any call of [GetLogger] the initialiser has run; when the call
    returns, the variable holds the logger that was returned, and a second
    call returns the same logger and changes nothing. *)
Lemma GetLogger_twice (g : Globals) (h : Heap) :
  let '(o, g1) := GetLogger E ZapLoggerProvider LogrusLoggerProvider g h in
  loggerOnce g1 = true /\
  forall l1 h1, o = Returns l1 h1 ->
    globalLogger g1 = l1 /\
    GetLogger E ZapLoggerProvider LogrusLoggerProvider g1 h1 = (Returns l1 h1, g1).
Proof.
  unfold GetLogger. destruct (loggerOnce g) eqn:Honce.
  - split; [done|]. intros l1 h1 [= <- <-]. by rewrite Honce.
  - destruct (GetLogFactory E ZapLoggerProvider LogrusLoggerProvider g) as [f g1].
    destruct (CreateLogger E f "global" h) as [l h1|code h1|v h1];
      (split; [done|]); intros l1 h2 Hret; [|done|done].
    by injection Hret as <- <-.
Qed.

(** On first use the logger is built by [CreateLogger("global")] of the
    factory. *)
Lemma GetLogger_first_use (g : Globals) (h : Heap) :
  loggerOnce g = false ->
  fst (GetLogger E ZapLoggerProvider LogrusLoggerProvider g h) =
  CreateLogger E (fst (GetLogFactory E ZapLoggerProvider LogrusLoggerProvider g))
    "global" h.
Proof.
  unfold GetLogger. intros ->.
  destruct (GetLogFactory E ZapLoggerProvider LogrusLoggerProvider g) as [f g1].
  simpl. by destruct (CreateLogger E f "global" h).
Qed.

(** Once the initialiser has run, [GetLogger] returns what
    [SetGlobalLogger] stored. *)
Lemma SetGlobalLogger_after_first_use (L3 : Logger) (g : Globals) (h : Heap) :
  loggerOnce g = true ->
  GetLogger E ZapLoggerProvider LogrusLoggerProvider (SetGlobalLogger L3 g) h
  = (Returns L3 h, SetGlobalLogger L3 g).
Proof. unfold GetLogger, SetGlobalLogger; simpl. by intros ->. Qed.

(** The factory of a fresh process resolves ["console"]. *)
Lemma GetLogFactory_start_console (L3 : Logger) :
  let f := fst (GetLogFactory E ZapLoggerProvider LogrusLoggerProvider
                  (SetGlobalLogger L3 start)) in
  defaultProvider f = "console" /\
  providers f !! "console" = Some (ConsoleLoggerProvider E).
Proof.
  simpl. split; [done|].
  rewrite !lookup_insert_ne by done. by rewrite lookup_insert_eq.
Qed.

(** When [SetGlobalLogger] is the first call of the process, the next
    [GetLogger] still runs the initialiser: it returns a newly built console
    logger named ["global"] and overwrites the variable. *)
Lemma GetLogger_overwrites_early_set (L3 : Logger) (h : Heap) :
  let '(o, g') :=
    GetLogger E ZapLoggerProvider LogrusLoggerProvider (SetGlobalLogger L3 start) h in
  o = fallback_console "global" h /\ globalLogger g' = Ptr (length (cells h)).
Proof.
  unfold GetLogger; simpl.
  unfold CreateLogger, CreateLoggerWithProvider; simpl.
  rewrite !lookup_insert_ne by done. rewrite lookup_insert_eq. simpl. done.
Qed.

End Global.

(** ** The properties on concrete inputs *)

Lemma CreateLoggerWithProvider_resolves_witness :
  (providers Sample.registry !! "does-not-exist" = None /\
   providers Sample.registry !! defaultProvider Sample.registry
     = Some (ConsoleLoggerProvider Sample.env) /\
   CreateLoggerWithProvider Sample.env Sample.registry "svc" "does-not-exist"
       (empty_heap 0)
     = Create (ConsoleLoggerProvider Sample.env) "svc" (empty_heap 0)) /\
  (providers NewLogFactory !! "zap" = None /\
   providers NewLogFactory !! defaultProvider NewLogFactory = None /\
   CreateLoggerWithProvider Sample.env NewLogFactory "svc" "zap" (empty_heap 0)
     = fallback_console "svc" (empty_heap 0)) /\
  (providers (RegisterProvider NewLogFactory "x" nilProvider) !! "x"
     = Some nilProvider /\
   CreateLoggerWithProvider Sample.env
       (RegisterProvider NewLogFactory "x" nilProvider) "svc" "x" (empty_heap 0)
     = Panics nil_dereference (empty_heap 0)).
Proof.
  assert (H1 : providers Sample.registry !! "does-not-exist" = None)
    by reflexivity.
  assert (H2 : providers Sample.registry !! defaultProvider Sample.registry
               = Some (ConsoleLoggerProvider Sample.env)) by reflexivity.
  assert (H3 : providers NewLogFactory !! "zap" = None) by reflexivity.
  assert (H4 : providers NewLogFactory !! defaultProvider NewLogFactory = None)
    by reflexivity.
  assert (H5 : providers (RegisterProvider NewLogFactory "x" nilProvider) !! "x"
               = Some nilProvider) by reflexivity.
  split; [|split]; (split; [assumption|]); try (split; [assumption|]).
  - exact (proj1 (proj2
      (CreateLoggerWithProvider_resolves Sample.env Sample.registry "svc"
         "does-not-exist" (empty_heap 0))) _ H1 H2).
  - exact (proj1 (proj1 (proj2 (proj2
      (CreateLoggerWithProvider_resolves Sample.env NewLogFactory "svc" "zap"
         (empty_heap 0)))) H3 H4)).
  - exact (proj1 (proj2 (proj2 (proj2 (proj2 (proj2 (proj2
      (CreateLoggerWithProvider_resolves Sample.env
         (RegisterProvider NewLogFactory "x" nilProvider) "svc" "x"
         (empty_heap 0)))))))) H5).
Defined.

Lemma CreateLoggerWithConfig_empty_witness :
  providers Sample.registry !! defaultProvider Sample.registry
    = Some (ConsoleLoggerProvider Sample.env) /\
  CreateLoggerWithConfig Sample.env Sample.registry "svc" ∅ (empty_heap 0)
    = CreateLogger Sample.env Sample.registry "svc" (empty_heap 0).
Proof.
  assert (H : providers Sample.registry !! defaultProvider Sample.registry
              = Some (ConsoleLoggerProvider Sample.env)) by reflexivity.
  split; [assumption|].
  exact (proj1 (proj2 (proj2 (proj2 (proj2 (proj2
    (CreateLoggerWithConfig_empty Sample.env Sample.registry "svc"
       (empty_heap 0))))))) H).
Defined.

Lemma gating_agrees_witness :
  cells (Sample.one_console InfoLevel) !! 0%nat
    = Some (Sample.console_cell InfoLevel) /\
  exists h',
    SetLevel 0 WarnLevel (Sample.one_console InfoLevel) = Returns tt h' /\
    (emits (emit Sample.env SError 0 "disk full" [] h') h'
       <-> level_of SError >= WarnLevel) /\
    (emits (emit Sample.env SInfo 0 "started" [] h') h'
       <-> level_of SInfo >= WarnLevel).
Proof.
  split; [reflexivity|].
  destruct (gating_agrees Sample.env 0 (Sample.console_cell InfoLevel) WarnLevel
              SError "disk full" [] "" [] (Sample.one_console InfoLevel) eq_refl)
    as (h' & Hset & _ & He & _).
  destruct (gating_agrees Sample.env 0 (Sample.console_cell InfoLevel) WarnLevel
              SInfo "started" [] "" [] (Sample.one_console InfoLevel) eq_refl)
    as (h'' & Hset' & _ & He' & _).
  exists h'. split; [exact Hset|]. split; [exact He|].
  rewrite Hset in Hset'. injection Hset' as <-. exact He'.
Defined.

(** C6 (as stated, refuted). A console handle at threshold [PanicLevel]:
    [Fatal] and [Fatalf] write nothing and return, the process goes on. A
    handle whose threshold was set to 6: [Panic] and [Panicf] write nothing
    and return. *)
Lemma Fatal_Panic_not_always :
  Fatal Sample.env 0 "boom" [] (Sample.one_console PanicLevel)
    = Returns tt (Sample.one_console PanicLevel) /\
  Fatalf Sample.env 0 "boom %d" [VInt 1] (Sample.one_console PanicLevel)
    = Returns tt (Sample.one_console PanicLevel) /\
  Panic Sample.env 0 "boom" [] (Sample.one_console 6)
    = Returns tt (Sample.one_console 6) /\
  Panicf Sample.env 0 "boom %d" [VInt 1] (Sample.one_console 6)
    = Returns tt (Sample.one_console 6) /\
  written (Fatal Sample.env 0 "boom" [] (Sample.one_console PanicLevel))
          (Sample.one_console PanicLevel) = [] /\
  is_exit (Fatal Sample.env 0 "boom" [] (Sample.one_console PanicLevel)) = false.
Proof. repeat split; reflexivity. Qed.

Lemma Fatal_Panic_gated_witness :
  cells (Sample.one_console ErrorLevel) !! 0%nat
    = Some (Sample.console_cell ErrorLevel) /\
  level (Sample.console_cell ErrorLevel) <= FatalLevel /\
  emits (Fatal Sample.env 0 "boom" [] (Sample.one_console ErrorLevel))
        (Sample.one_console ErrorLevel) /\
  is_exit (Fatal Sample.env 0 "boom" [] (Sample.one_console ErrorLevel)) = true /\
  written (Fatal Sample.env 0 "boom" [] (Sample.one_console ErrorLevel))
          (Sample.one_console ErrorLevel)
    = [(Stdout, "T0 [FATAL] [svc] boom" +:+ newline)].
Proof.
  assert (Hle : level (Sample.console_cell ErrorLevel) <= FatalLevel)
    by (intros Hgt; discriminate Hgt).
  split; [reflexivity|]. split; [exact Hle|].
  split; [|split; reflexivity].
  exact (proj1 (proj2 (proj2 (proj1
    (Fatal_Panic_gated Sample.env 0 (Sample.console_cell ErrorLevel) "boom" []
       "" [] (Sample.one_console ErrorLevel) eq_refl) Hle)))).
Defined.

Lemma formatted_variants_witness :
  cells (Sample.one_std InfoLevel) !! 0%nat = Some (Sample.std_cell InfoLevel) /\
  slice_ok (Sample.one_std InfoLevel) (fields (Sample.std_cell InfoLevel)) = true /\
  Infof Sample.env 0 "took %d ms for %s" [VInt 12; VString "GET"]
        (Sample.one_std InfoLevel)
    = Info Sample.env 0 (Sprintf Sample.env "took %d ms for %s" [VInt 12; VString "GET"]) []
        (Sample.one_std InfoLevel) /\
  written (Infof Sample.env 0 "took %d ms for %s" [VInt 12; VString "GET"]
             (Sample.one_std InfoLevel)) (Sample.one_std InfoLevel)
    = [(Stdout, "D0 [INFO] [svc] took 12 ms for GET" +:+ newline)].
Proof.
  split; [reflexivity|]. split; [reflexivity|].
  split; [|reflexivity].
  exact (proj1 (formatted_variants Sample.env SInfo 0 (Sample.std_cell InfoLevel)
                  "took %d ms for %s" [VInt 12; VString "GET"]
                  (Sample.one_std InfoLevel) eq_refl eq_refl)).
Defined.

Lemma WithField_copy_on_write_witness :
  heap_ok Sample.chain3 = true /\
  cells Sample.chain3 !! 3%nat = Some Sample.chain3_cell /\
  exists p2 h2,
    WithField Sample.env 3 "d" (VInt 4) Sample.chain3 = Returns (Ptr p2) h2 /\
    p2 <> 3%nat /\
    slice_view h2 (fields Sample.chain3_cell)
      = [mkField "a" (VInt 1); mkField "b" (VInt 2); mkField "c" (VInt 3)] /\
    written (Info Sample.env 3 "m" [] h2) h2
      = [(Stdout, "T0 [INFO] [svc] m a=1 b=2 c=3" +:+ newline)].
Proof.
  split; [reflexivity|]. split; [reflexivity|].
  destruct (WithField_copy_on_write Sample.env 3 Sample.chain3_cell "d" (VInt 4)
              Sample.chain3 eq_refl eq_refl)
    as (p2 & h2 & c2 & Hcall & Hne & _ & _ & _ & _ & _ & _ & Hview & _ & Hemit).
  exists p2, h2. split; [exact Hcall|]. split; [exact Hne|].
  split; [exact Hview|].
  exact (proj1 (Hemit SInfo "m" [])).
Defined.

Lemma chained_WithField_in_order_witness :
  heap_ok (Sample.one_console InfoLevel) = true /\
  cells (Sample.one_console InfoLevel) !! 0%nat
    = Some (Sample.console_cell InfoLevel) /\
  exists p1 h1 p2 h2,
    WithField Sample.env 0 "a" (VInt 1) (Sample.one_console InfoLevel)
      = Returns (Ptr p1) h1 /\
    WithField Sample.env p1 "b" (VInt 2) h1 = Returns (Ptr p2) h2 /\
    written (Info Sample.env p2 "m" [mkField "x" (VInt 9)] h2) h2
      = [(Stdout, "T0 [INFO] [svc] m a=1 b=2 x=9" +:+ newline)].
Proof.
  split; [reflexivity|]. split; [reflexivity|].
  destruct (chained_WithField_in_order Sample.env 0 (Sample.console_cell InfoLevel)
              "a" "b" (VInt 1) (VInt 2) (Sample.one_console InfoLevel)
              eq_refl eq_refl)
    as (p1 & h1 & p2 & h2 & c2 & Hcall1 & Hcall2 & _ & _ & Hemit).
  exists p1, h1, p2, h2. split; [exact Hcall1|]. split; [exact Hcall2|].
  exact (Hemit SInfo "m" [mkField "x" (VInt 9)]).
Defined.

Lemma WithContext_inert_witness :
  cells (Sample.one_std InfoLevel) !! 0%nat = Some (Sample.std_cell InfoLevel) /\
  exists p2 h2,
    WithContext 0 (CtxValue 7) (Sample.one_std InfoLevel) = Returns (Ptr p2) h2 /\
    Warn Sample.env p2 "slow" [mkField "ms" (VInt 40)] h2
      = Warn Sample.env 0 "slow" [mkField "ms" (VInt 40)] h2.
Proof.
  split; [reflexivity|].
  destruct (WithContext_inert Sample.env 0 (Sample.std_cell InfoLevel) (CtxValue 7)
              (Sample.one_std InfoLevel) eq_refl)
    as (p2 & h2 & Hcall & _ & _ & _ & _ & _ & _ & _ & _ & _ & Hemit & _).
  exists p2, h2. split; [exact Hcall|].
  exact (Hemit SWarn "slow" [mkField "ms" (VInt 40)]).
Defined.

(** C4 (the code where the claim fails). [SetGlobalLogger(L3)] as the first
    call of a process, with [L3] the std logger at address 0, followed by
    [GetLogger()]: the once-initialiser has not run yet, so it runs now,
    builds the console logger ["global"] at address 1, stores it over [L3]
    and returns it. [GetLogger()] does not return [L3]. *)
Theorem early_SetGlobalLogger_is_lost :
  let h0 := Sample.one_std InfoLevel in
  let L3 := Ptr 0 in
  let '(o, g') :=
    GetLogger Sample.env Sample.zap Sample.logrus (SetGlobalLogger L3 start) h0 in
  exists l h',
    o = Returns l h' /\
    l = Ptr 1 /\ l <> L3 /\ globalLogger g' = Ptr 1 /\
    cells h' !! 1%nat
      = Some (mkCell Console InfoLevel make_empty Background (mkLog Stdout 0) "global").
Proof.
  vm_compute. eexists _, _. split; [reflexivity|].
  repeat split; try reflexivity. intros [=].
Qed.

(** Handles enriched from one receiver can share an array cell. From the
    handle at address 3 of [chain3] (length 3, capacity 4): a second
    [WithField] on it replaces what the handle returned by the first shows as
    its last field, and so does an emission on it with a field of the call. *)
Lemma sibling_fields_share_array :
  let o4 := WithField Sample.env 3 "d" (VInt 4) Sample.chain3 in
  let o5 := WithField Sample.env 3 "e" (VInt 5) (heap_of o4) in
  let o6 := Info Sample.env 3 "parent" [mkField "x" (VInt 9)] (heap_of o4) in
  written (Info Sample.env (Sample.ptr_of o4) "m" [] (heap_of o4)) (heap_of o4)
    = [(Stdout, "T0 [INFO] [svc] m a=1 b=2 c=3 d=4" +:+ newline)] /\
  written (Info Sample.env (Sample.ptr_of o4) "m" [] (heap_of o5)) (heap_of o5)
    = [(Stdout, "T0 [INFO] [svc] m a=1 b=2 c=3 e=5" +:+ newline)] /\
  written (Info Sample.env (Sample.ptr_of o4) "m" [] (heap_of o6)) (heap_of o6)
    = [(Stdout, "T0 [INFO] [svc] m a=1 b=2 c=3 x=9" +:+ newline)].
Proof. repeat split; reflexivity. Qed.

(** * More of the code *)

(** ** The registry: registration, default name, configuration *)

Section RegistryMore.
Context (E : GoEnv).

(** X1. Registering then looking up gives the provider; registering again
    under the same name overwrites; unregistering removes; other names and
    the default name are untouched; unregistering an absent name changes
    nothing. *)
Theorem registry_round_trip (f : LogFactory) (x : string) (P Q : LoggerProvider) :
  GetProvider (RegisterProvider f x P) x = Some P /\
  GetProvider (RegisterProvider (RegisterProvider f x P) x Q) x = Some Q /\
  GetProvider (UnregisterProvider (RegisterProvider f x P) x) x = None /\
  (forall y, y <> x ->
     GetProvider (RegisterProvider f x P) y = GetProvider f y /\
     GetProvider (UnregisterProvider f x) y = GetProvider f y) /\
  GetDefaultProvider (RegisterProvider f x P) = GetDefaultProvider f /\
  GetDefaultProvider (UnregisterProvider f x) = GetDefaultProvider f /\
  (GetProvider f x = None -> UnregisterProvider f x = f).
Proof.
  unfold GetProvider, GetDefaultProvider, RegisterProvider, UnregisterProvider; simpl.
  split; [by rewrite lookup_insert_eq|].
  split; [by rewrite lookup_insert_eq|].
  split; [by rewrite lookup_delete_eq|].
  split.
  { intros y Hy. by rewrite lookup_insert_ne, lookup_delete_ne. }
  split; [done|]. split; [done|].
  intros Hx. rewrite delete_id by done. by destruct f.
Qed.

(** X2. The default name decides [CreateLogger]: a registered name makes
    it use that provider; a name that is not registered, or whose provider
    was unregistered, makes it build the console fallback. The default name
    does not matter to [CreateLoggerWithProvider] on a registered name. *)
Theorem default_provider_switch (f : LogFactory) (p2 name : string) (h : Heap) :
  (forall P2, GetProvider f p2 = Some P2 ->
     CreateLogger E (SetDefaultProvider f p2) name h = Create P2 name h) /\
  (GetProvider f p2 = None ->
     CreateLogger E (SetDefaultProvider f p2) name h = fallback_console name h) /\
  CreateLogger E (UnregisterProvider f (GetDefaultProvider f)) name h
    = fallback_console name h /\
  (forall pn P, GetProvider f pn = Some P ->
     CreateLoggerWithProvider E (SetDefaultProvider f p2) name pn h = Create P name h).
Proof.
  unfold GetProvider, GetDefaultProvider.
  split; [|split; [|split]].
  - intros P2 H2. rewrite CreateLogger_default. simpl. by rewrite H2.
  - intros H2. rewrite CreateLogger_default. simpl. by rewrite H2.
  - rewrite CreateLogger_default. simpl. by rewrite lookup_delete_eq.
  - intros pn P HP. unfold CreateLoggerWithProvider. simpl. by rewrite HP.
Qed.

(** X3. [CreateLoggerWithConfig] takes the provider name from the key
    ["provider"] when it holds a string; a missing key or a value of another
    type means the default name. The whole map goes to the provider that
    was resolved. When neither the requested nor the default name is
    registered, the console fallback is built and the map is not used. *)
Theorem CreateLoggerWithConfig_resolution (f : LogFactory) (name : string)
    (config : gmap string any) (h : Heap) :
  (forall pn P, config !! "provider" = Some (VString pn) ->
     providers f !! pn = Some P ->
     CreateLoggerWithConfig E f name config h = CreateWithConfig P name config h) /\
  (forall pn D, config !! "provider" = Some (VString pn) ->
     providers f !! pn = None -> providers f !! defaultProvider f = Some D ->
     CreateLoggerWithConfig E f name config h = CreateWithConfig D name config h) /\
  ((forall pn, config !! "provider" <> Some (VString pn)) ->
     CreateLoggerWithConfig E f name config h =
     match providers f !! defaultProvider f with
     | Some D => CreateWithConfig D name config h
     | None => fallback_console name h
     end) /\
  (providers f !! defaultProvider f = None ->
   (forall pn, config !! "provider" = Some (VString pn) -> providers f !! pn = None) ->
     CreateLoggerWithConfig E f name config h = fallback_console name h).
Proof.
  unfold CreateLoggerWithConfig.
  split; [|split; [|split]].
  - intros pn P -> HP. simpl. by rewrite HP.
  - intros pn D -> Hpn HD. simpl. by rewrite Hpn, HD.
  - intros Hno.
    assert (assert_string (config !! "provider") = None) as ->.
    { destruct (config !! "provider") as [[]|]; try done. by edestruct Hno. }
    by destruct (providers f !! defaultProvider f).
  - intros HD Hpn.
    destruct (config !! "provider") as [v|] eqn:Hv; simpl.
    + destruct v; simpl; rewrite ?HD; try done.
      by rewrite (Hpn s eq_refl).
    + by rewrite HD.
Qed.

(** X4. The console provider reads two keys of a configuration map: the
    level, used when the value has type [LogLevel], and the output path, used
    when the value is a string. A level or path of another type is replaced
    by the default (Info, stdout), and no other key, ["format"] included,
    changes the logger that is built. *)
Theorem Console_CreateWithConfig_keys (name : string) (config : gmap string any)
    (h : Heap) :
  CreateWithConfig (ConsoleLoggerProvider E) name config h =
    Returns (Ptr (length (cells h)))
      (set_cells (cells h ++
         [mkCell Console (config_level config) make_empty Background
                 (mkLog (openOutput E (config_outputPath config)) 0) name]) h) /\
  (forall l, config_level (<["level" := VLogLevel l]> config) = l) /\
  (forall v, (forall l, v <> VLogLevel l) ->
     config_level (<["level" := v]> config) = InfoLevel) /\
  config_level (delete "level" config) = InfoLevel /\
  (forall s, config_outputPath (<["outputPath" := VString s]> config) = s) /\
  (forall v, (forall s, v <> VString s) ->
     config_outputPath (<["outputPath" := v]> config) = "stdout") /\
  (forall k v, k <> "level" -> k <> "outputPath" ->
     CreateWithConfig (ConsoleLoggerProvider E) name (<[k := v]> config) h
     = CreateWithConfig (ConsoleLoggerProvider E) name config h).
Proof.
  split; [done|].
  split; [intros l; unfold config_level; by rewrite lookup_insert_eq|].
  split.
  { intros v Hv. unfold config_level. rewrite lookup_insert_eq.
    destruct v; try done. by edestruct Hv. }
  split; [unfold config_level; by rewrite lookup_delete_eq|].
  split; [intros s; unfold config_outputPath; by rewrite lookup_insert_eq|].
  split.
  { intros v Hv. unfold config_outputPath. rewrite lookup_insert_eq.
    destruct v; try done. by edestruct Hv. }
  intros k v Hk1 Hk2. simpl. unfold NewConsoleLogger, applyOptions; simpl.
  unfold config_level, config_outputPath.
  by rewrite !lookup_insert_ne.
Qed.

(** X5. Options are applied in order, so an option given last decides:
    whatever options precede it, a final [WithLevel] fixes the threshold of
    the console and of the std logger; a final [WithFormat] or [WithConfig]
    changes nothing in the logger that is built. *)
Theorem last_option_decides (name : string) (opts : list Option) (h : Heap) :
  (forall o, applyOptions (opts ++ [o]) = o (applyOptions opts)) /\
  (forall l,
     NewConsoleLogger E name (opts ++ [WithLevel l]) h =
       (length (cells h),
        set_cells (cells h ++
          [mkCell Console l make_empty Background
                  (mkLog (openOutput E (opt_OutputPath (applyOptions opts))) 0)
                  name]) h) /\
     NewStdLogger E name (opts ++ [WithLevel l]) h =
       (length (cells h),
        set_cells (cells h ++
          [mkCell Std l make_empty Background
                  (mkLog (openOutput E (opt_OutputPath (applyOptions opts))) LstdFlags)
                  name]) h)) /\
  (forall format,
     NewConsoleLogger E name (opts ++ [WithFormat format]) h
       = NewConsoleLogger E name opts h /\
     NewStdLogger E name (opts ++ [WithFormat format]) h
       = NewStdLogger E name opts h) /\
  (forall config,
     NewConsoleLogger E name (opts ++ [WithConfig config]) h
       = NewConsoleLogger E name opts h /\
     NewStdLogger E name (opts ++ [WithConfig config]) h
       = NewStdLogger E name opts h).
Proof.
  assert (forall o, applyOptions (opts ++ [o]) = o (applyOptions opts)) as Hlast.
  { intros o. unfold applyOptions. by rewrite foldl_app. }
  split; [done|].
  unfold NewConsoleLogger, NewStdLogger.
  repeat split; by rewrite Hlast.
Qed.

(** X6. Where a new console logger writes: stdout for the path
    ["stdout"], the file for a path that opens, and stdout again for a path
    that does not open. Its records go to that sink. *)
Theorem output_sink_fallback (name path : string) (opts : list Option)
    (s : Severity) (msg : string) (flds : list Field) (h : Heap) :
  openOutput E path =
    (if String.eqb path "stdout" then Stdout
     else if OpenFile_ok E path then File path else Stdout) /\
  (OpenFile_ok E path = false -> openOutput E path = Stdout) /\
  (let '(p, h1) := NewConsoleLogger E name (opts ++ [WithOutputPath path]) h in
   fst <$> written (emit E s p msg flds h1) h1 =
     if opt_Level (applyOptions opts) <=? level_of s
     then [openOutput E path] else []) /\
  (let '(p, h1) := NewStdLogger E name (opts ++ [WithOutputPath path]) h in
   fst <$> written (emit E s p msg flds h1) h1 =
     if opt_Level (applyOptions opts) <=? level_of s
     then [openOutput E path] else []).
Proof.
  split; [done|].
  split.
  { intros Hfail. unfold openOutput. rewrite Hfail. by destruct (String.eqb _ _). }
  assert (applyOptions (opts ++ [WithOutputPath path])
          = WithOutputPath path (applyOptions opts)) as Hlast
    by (unfold applyOptions; by rewrite foldl_app).
  unfold NewConsoleLogger, NewStdLogger. rewrite Hlast. simpl.
  split.
  - match goal with |- context [cells h ++ [?c]] => set (cell := c) end.
    rewrite (emit_written E s _ cell); simpl.
    + by case_match.
    + by rewrite lookup_app_r, Nat.sub_diag.
    + done.
  - match goal with |- context [cells h ++ [?c]] => set (cell := c) end.
    rewrite (emit_written E s _ cell); simpl.
    + by case_match.
    + by rewrite lookup_app_r, Nat.sub_diag.
    + done.
Qed.

End RegistryMore.

(** ** Handles: thresholds, frames, reachable stores *)

Section HandlesMore.
Context (E : GoEnv).

(** What a struct writes when it renders the sequence [V] of bound fields,
    told from the struct [c] it was copied from. *)
Lemma emit_written_derived (Y : Severity) (p2 : nat) (c c2 : LoggerCell)
    (V : list Field) (msg : string) (flds : list Field) (h h2 : Heap) :
  cells h2 !! p2 = Some c2 ->
  slice_ok h2 (fields c2) = true ->
  kind c2 = kind c -> level c2 = level c -> logger c2 = logger c ->
  name c2 = name c -> clock h2 = clock h ->
  slice_view h2 (fields c2) = V ->
  written (emit E Y p2 msg flds h2) h2 =
    if level c <=? level_of Y
    then [record_of E (logger c)
            (line_prefix E c (level_of Y) h +:+ msg +:+ fieldStr E (V ++ flds)) h]
    else [].
Proof.
  intros Hc2 Hok Hk Hl Hlg Hn Hclock Hview.
  rewrite (emit_written E Y p2 c2) by done.
  rewrite Hl, Hlg. unfold line_of, line_prefix.
  by rewrite Hk, Hn, Hclock, Hview, (record_of_clock E _ _ h h2).
Qed.

(** [WithFields] followed by an emission on the new handle. *)
Lemma WithFields_then_emit (p : nat) (c : LoggerCell) (xs : list Field) (h : Heap) :
  heap_ok h = true ->
  cells h !! p = Some c ->
  exists h2 c2,
    WithFields E p xs h = Returns (Ptr (length (cells h))) h2 /\
    cells h2 = cells h ++ [c2] /\
    kind c2 = kind c /\ level c2 = level c /\ ctx c2 = ctx c /\
    logger c2 = logger c /\ name c2 = name c /\
    slice_view h2 (fields c2) = slice_view h (fields c) ++ xs /\
    heap_ok h2 = true /\ clock h2 = clock h /\ trace h2 = trace h /\
    forall (Y : Severity) (msg : string) (flds : list Field),
      written (emit E Y (length (cells h)) msg flds h2) h2 =
        if level c <=? level_of Y
        then [record_of E (logger c)
                (line_prefix E c (level_of Y) h +:+ msg
                   +:+ fieldStr E ((slice_view h (fields c) ++ xs) ++ flds)) h]
        else [].
Proof.
  intros Hok Hc.
  destruct (WithFields_spec E p c xs h Hok Hc)
    as (h2 & fs & Hcall & Hcells & Hnew & _ & Hclock & Htrace & Hok2).
  set (c2 := mkCell (kind c) (level c) fs (ctx c) (logger c) (name c)) in *.
  assert (cells h2 !! length (cells h) = Some c2) as Hc2
    by (by rewrite Hcells, lookup_app_r, Nat.sub_diag).
  exists h2, c2. repeat (split; [done|]).
  intros Y msg flds.
  apply (emit_written_derived Y _ c c2); try done.
  by eapply heap_ok_lookup.
Qed.

(** X7. The threshold belongs to one handle. A handle made by [WithField]
    keeps the level its receiver had at that moment: a later [SetLevel] on
    the receiver does not reach it, a [SetLevel] on it does not reach the
    receiver, and a handle made after [SetLevel] starts from the new level.
    [SetLevel] leaves every other struct as it was. *)
Theorem SetLevel_is_per_handle (p : nat) (c : LoggerCell) (k : string) (v : any)
    (X : LogLevel) (h : Heap) :
  heap_ok h = true ->
  cells h !! p = Some c ->
  (exists p2 h2 h3,
     WithField E p k v h = Returns (Ptr p2) h2 /\
     SetLevel p X h2 = Returns tt h3 /\
     GetLevel p h3 = Returns X h3 /\ GetLevel p2 h3 = Returns (level c) h3) /\
  (exists p2 h2 h3,
     WithField E p k v h = Returns (Ptr p2) h2 /\
     SetLevel p2 X h2 = Returns tt h3 /\
     GetLevel p2 h3 = Returns X h3 /\ GetLevel p h3 = Returns (level c) h3) /\
  (exists h1 p2 h2,
     SetLevel p X h = Returns tt h1 /\
     WithField E p k v h1 = Returns (Ptr p2) h2 /\
     GetLevel p h2 = Returns X h2 /\ GetLevel p2 h2 = Returns X h2) /\
  (exists h1,
     SetLevel p X h = Returns tt h1 /\
     forall q, q <> p -> cells h1 !! q = cells h !! q).
Proof.
  intros Hok Hc. unfold WithField.
  destruct (fresh_address h p c Hc) as [Hne _].
  destruct (WithFields_then_emit p c [mkField k v] h Hok Hc)
    as (h2 & c2 & Hcall & Hcells & _ & Hl2 & _ & _ & _ & _ & Hok2 & _).
  assert (cells h2 !! p = Some c) as Hp
    by (rewrite Hcells; by apply lookup_app_l_Some).
  assert (cells h2 !! length (cells h) = Some c2) as Hp2
    by (by rewrite Hcells, lookup_app_r, Nat.sub_diag).
  split; [|split; [|split]].
  - destruct (SetLevel_sets p c X h2 Hp) as (h3 & Hset & Hp3 & _).
    exists (length (cells h)), h2, h3. repeat (split; [done|]).
    split; [by unfold GetLevel, deref; rewrite Hp3|].
    unfold GetLevel, deref.
    assert (cells h3 !! length (cells h) = Some c2) as ->; [|by rewrite Hl2].
    unfold SetLevel, deref in Hset. rewrite Hp in Hset.
    injection Hset as <-. simpl. by rewrite list_lookup_insert_ne.
  - destruct (SetLevel_sets _ c2 X h2 Hp2) as (h3 & Hset & Hp3 & _).
    exists (length (cells h)), h2, h3. repeat (split; [done|]).
    split; [by unfold GetLevel, deref; rewrite Hp3|].
    unfold GetLevel, deref.
    assert (cells h3 !! p = Some c) as ->; [|done].
    unfold SetLevel, deref in Hset. rewrite Hp2 in Hset.
    injection Hset as <-. simpl. by rewrite list_lookup_insert_ne.
  - destruct (SetLevel_sets p c X h Hc) as (h1 & Hset & Hp1 & _).
    pose proof (SetLevel_heap_ok p X h Hok) as Hok1. rewrite Hset in Hok1.
    simpl in Hok1.
    destruct (WithFields_then_emit p _ [mkField k v] h1 Hok1 Hp1)
      as (h2' & c2' & Hcall' & Hcells' & _ & Hl2' & _).
    exists h1, (length (cells h1)), h2'. repeat (split; [done|]).
    unfold GetLevel, deref. rewrite Hcells'. split.
    + by rewrite (lookup_app_l_Some _ _ _ _ Hp1).
    + rewrite lookup_app_r, Nat.sub_diag by lia. simpl. by rewrite Hl2'.
  - unfold SetLevel, deref. rewrite Hc. eexists; split; [done|].
    intros q Hq. simpl. by rewrite list_lookup_insert_ne.
Qed.

(** Emission leaves the structs and the clock alone and adds at most one
    write after those already made. *)
Lemma emit_frame (s : Severity) (p : nat) (msg : string) (flds : list Field) (h : Heap) :
  let h' := heap_of (emit E s p msg flds h) in
  cells h' = cells h /\ clock h' = clock h /\
  exists w, trace h' = trace h ++ w /\ (length w <= 1)%nat.
Proof.
  simpl. destruct (cells h !! p) as [c|] eqn:Hc.
  - rewrite (emit_unfold E s p c) by done. case_match.
    + unfold fire.
      pose proof (formatMessage_frame E c (level_of s) msg flds h) as Hf.
      destruct (formatMessage E c (level_of s) msg flds h) as [line h1].
      simpl in Hf. destruct Hf as (Hclock & Hcells & Htrace).
      assert (cells (Println E (logger c) line h1) = cells h /\
              clock (Println E (logger c) line h1) = clock h /\
              exists w, trace (Println E (logger c) line h1) = trace h ++ w /\
                        (length w <= 1)%nat) as Hgoal.
      { split; [done|]. split; [done|].
        exists [record_of E (logger c) line h1].
        rewrite Println_trace, Htrace. split; [done|simpl; lia]. }
      by destruct s.
    + simpl. repeat split; try done. exists [].
      split; [by rewrite app_nil_r|simpl; lia].
  - assert (emit E s p msg flds h = Panics nil_dereference h) as ->.
    { destruct s; unfold emit, Debug, Info, Warn, Error, Fatal, Panic, deref;
        by rewrite Hc. }
    simpl. repeat split; try done. exists [].
      split; [by rewrite app_nil_r|simpl; lia].
Qed.

(** What each call does to the list of structs: nothing, one allocation at
    the end, or the new level at the address of a [SetLevel]. *)
Lemma perform_cells (call : Call) (h : Heap) :
  cells (perform E call h) = cells h \/
  (exists c, cells (perform E call h) = cells h ++ [c]) \/
  (exists p l c, call = CSetLevel p l /\ cells h !! p = Some c /\
     cells (perform E call h)
     = <[p := mkCell (kind c) l (fields c) (ctx c) (logger c) (name c)]> (cells h)).
Proof.
  assert (forall p flds,
            cells (heap_of (WithFields E p flds h)) = cells h \/
            exists c, cells (heap_of (WithFields E p flds h)) = cells h ++ [c]) as HWF.
  { intros p flds. unfold WithFields, deref.
    destruct (cells h !! p) as [c|]; [|by left].
    destruct (append E (fields c) flds h) as [fs h1] eqn:Happ.
    destruct (append_frame E _ _ _ _ _ Happ) as (_ & Hcells & _).
    right. eexists. simpl. by rewrite Hcells. }
  destruct call; simpl.
  - right; left. by eexists.
  - right; left. by eexists.
  - unfold SetLevel, deref. destruct (cells h !! p) as [c|] eqn:Hc; [|by left].
    right; right. by exists p, lvl, c.
  - left. apply emit_frame.
  - left. rewrite emitf_emit. apply emit_frame.
  - destruct (HWF p flds) as [?|?]; [by left|by right; left].
  - destruct (HWF p [mkField key value]) as [?|?]; [by left|by right; left].
  - unfold WithContext, deref. destruct (cells h !! p) as [c|]; [|by left].
    right; left. by eexists.
  - destruct (HWF p [mkField "error" err]) as [?|?]; [by left|by right; left].
  - destruct (HWF p [mkField "time" (VTime t)]) as [?|?]; [by left|by right; left].
Qed.

Lemma perform_keeps_struct (call : Call) (p : nat) (c : LoggerCell) (h : Heap) :
  cells h !! p = Some c ->
  exists c', cells (perform E call h) !! p = Some c' /\
    kind c' = kind c /\ fields c' = fields c /\ ctx c' = ctx c /\
    logger c' = logger c /\ name c' = name c /\
    (level c' = level c \/ exists l, call = CSetLevel p l /\ level c' = l).
Proof.
  intros Hc.
  destruct (perform_cells call h) as [->|[[c0 ->]|(q & l & cq & -> & Hq & ->)]].
  - exists c. repeat split; auto.
  - exists c. rewrite (lookup_app_l_Some _ _ _ _ Hc). repeat split; auto.
  - destruct (decide (q = p)) as [->|Hne].
    + rewrite list_lookup_insert_eq by (by eapply lookup_lt_Some).
      assert (cq = c) as -> by congruence.
      eexists; split; [done|]. simpl. repeat split; eauto.
    + rewrite list_lookup_insert_ne by done.
      exists c. repeat split; auto.
Qed.

(** X8. Over any sequence of calls a struct stays at its address with the
    kind, fields header, context, sink and name it was allocated with; its
    level changes only if the sequence holds a [SetLevel] on this address. *)
Theorem handles_are_stable (cs : list Call) (p : nat) (c : LoggerCell) (h : Heap) :
  cells h !! p = Some c ->
  exists c', cells (perform_all E cs h) !! p = Some c' /\
    kind c' = kind c /\ fields c' = fields c /\ ctx c' = ctx c /\
    logger c' = logger c /\ name c' = name c /\
    ((forall l, CSetLevel p l ∉ cs) -> level c' = level c).
Proof.
  revert c h. induction cs as [|call cs IH]; intros c h Hc.
  - exists c. repeat split; auto.
  - simpl.
    destruct (perform_keeps_struct call p c h Hc)
      as (c1 & Hc1 & Hk & Hf & Hx & Hlg & Hn & Hl).
    destruct (IH c1 (perform E call h) Hc1)
      as (c' & Hc' & Hk' & Hf' & Hx' & Hlg' & Hn' & Hl').
    exists c'. split; [done|].
    repeat split; try congruence.
    intros Hno. rewrite Hl'.
    + destruct Hl as [?|(l & -> & _)]; [done|].
      exfalso. apply (Hno l). by left.
    + intros l Hin. apply (Hno l). by right.
Qed.

Lemma perform_trace (call : Call) (h : Heap) :
  exists w, trace (perform E call h) = trace h ++ w /\
            (length w <= if is_emission call then 1 else 0)%nat.
Proof.
  assert (forall p flds, trace (heap_of (WithFields E p flds h)) = trace h) as HWF.
  { intros p flds. unfold WithFields, deref.
    destruct (cells h !! p) as [c|]; [|done].
    destruct (append E (fields c) flds h) as [fs h1] eqn:Happ.
    by destruct (append_frame E _ _ _ _ _ Happ) as (_ & _ & Ht & _). }
  assert (forall h', trace h' = trace h ->
            exists w, trace h' = trace h ++ w /\ (length w <= 0)%nat) as Hsame.
  { intros h' ->. exists []. split; [by rewrite app_nil_r|simpl; lia]. }
  destruct call; simpl; try (apply Hsame; unfold WithField, WithError, WithTime,
    WithField; by rewrite ?HWF).
  - apply Hsame. unfold SetLevel, deref. by destruct (cells h !! p).
  - by destruct (emit_frame s p msg flds h) as (_ & _ & Hw).
  - rewrite emitf_emit.
    by destruct (emit_frame s p (Sprintf E format args) [] h) as (_ & _ & Hw).
  - apply Hsame. unfold WithContext, deref. by destruct (cells h !! p).
Qed.

(** X9. Output is append-only: after any sequence of calls the trace is
    the earlier trace followed by at most one write per leveled call;
    constructors, enrichment and [SetLevel] write nothing. *)
Theorem output_is_append_only (cs : list Call) (h : Heap) :
  exists w, trace (perform_all E cs h) = trace h ++ w /\
            (length w <= length (filter (fun c => is_emission c = true) cs))%nat.
Proof.
  revert h. induction cs as [|call cs IH]; intros h.
  - exists []. split; [by rewrite app_nil_r|simpl; lia].
  - simpl. destruct (perform_trace call h) as (w1 & Hw1 & Hl1).
    destruct (IH (perform E call h)) as (w2 & Hw2 & Hl2).
    exists (w1 ++ w2). rewrite Hw2, Hw1, app_assoc. split; [done|].
    rewrite length_app.
    destruct (is_emission call) eqn:Hem.
    + rewrite filter_cons_True by done. simpl. lia.
    + rewrite filter_cons_False by (by rewrite Hem). lia.
Qed.

Lemma perform_heap_ok (call : Call) (h : Heap) :
  heap_ok h = true -> heap_ok (perform E call h) = true.
Proof.
  intros Hok. destruct call; simpl.
  - by apply NewConsoleLogger_heap_ok.
  - by apply NewStdLogger_heap_ok.
  - by apply SetLevel_heap_ok.
  - by apply emit_heap_ok.
  - rewrite emitf_emit. by apply emit_heap_ok.
  - by apply WithFields_heap_ok.
  - by apply WithFields_heap_ok.
  - by apply WithContext_heap_ok.
  - by apply WithFields_heap_ok.
  - by apply WithFields_heap_ok.
Qed.

(** X10. Every store reached from the empty one by constructor, level,
    emission and enrichment calls is valid: each struct's slice lies inside
    its backing array, with length at most capacity. *)
Theorem reachable_stores_are_valid (cs : list Call) (now : Z) :
  heap_ok (perform_all E cs (empty_heap now)) = true /\
  forall p c, cells (perform_all E cs (empty_heap now)) !! p = Some c ->
    (s_len (fields c) <= s_cap (fields c))%nat /\
    (s_cap (fields c)
       <= length (array_at (perform_all E cs (empty_heap now)) (s_ptr (fields c))))%nat.
Proof.
  assert (forall h, heap_ok h = true -> heap_ok (perform_all E cs h) = true) as Hall.
  { induction cs as [|call cs IH]; intros h Hok; [done|].
    simpl. apply IH. by apply perform_heap_ok. }
  pose proof (Hall (empty_heap now) (empty_heap_ok now)) as Hok.
  split; [done|]. intros p c Hc.
  pose proof (heap_ok_lookup _ _ _ Hok Hc) as Hs.
  unfold slice_ok in Hs. apply andb_prop in Hs as [H1 H2].
  apply Nat.leb_le in H1. apply Nat.leb_le in H2. done.
Qed.

End HandlesMore.

(** ** Enrichment: keys, composition, shared arrays *)

Lemma take_inserts_partial {A} (k l : list A) (i m : nat) :
  (i + length k <= length l)%nat -> (m <= length k)%nat ->
  take (i + m) (list_inserts i k l) = take i l ++ take m k.
Proof.
  intros Hlen Hm.
  replace (i + m)%nat with (Nat.min (i + m) (i + length k)) by lia.
  rewrite <- take_take, take_inserts_window by done.
  rewrite take_app, length_take.
  rewrite (take_ge (take i l)) by (rewrite length_take; lia).
  by replace (i + m - i `min` length l)%nat with m by lia.
Qed.

Section EnrichmentMore.
Context (E : GoEnv).

Lemma append_in_place (s : Slice) (xs : list Field) (h : Heap) :
  (s_len s + length xs <= s_cap s)%nat ->
  append E s xs h =
    (mkSlice (s_ptr s) (s_len s + length xs) (s_cap s),
     set_arrays (alter (list_inserts (s_len s) xs) (s_ptr s) (arrays h)) h).
Proof.
  intros Hfit. unfold append.
  by rewrite (proj2 (Nat.leb_le _ _) Hfit).
Qed.

(** After an in-place [append] of [xs] to [s], a slice over the same array
    that is [m] longer than [s] shows the elements of [s] and then the first
    [m] of [xs], whatever it showed before. *)
Lemma view_after_in_place (s t : Slice) (xs : list Field) (m : nat) (h : Heap) :
  slice_ok h s = true ->
  (s_len s + length xs <= s_cap s)%nat ->
  s_ptr t = s_ptr s -> s_len t = (s_len s + m)%nat -> (m <= length xs)%nat ->
  slice_view (set_arrays (alter (list_inserts (s_len s) xs) (s_ptr s) (arrays h)) h) t
  = slice_view h s ++ take m xs.
Proof.
  unfold slice_ok, slice_view. intros Hok Hfit Hptr Hlen Hm.
  apply andb_prop in Hok as [_ Hcap]. apply Nat.leb_le in Hcap.
  rewrite array_at_alter by apply list_inserts_nil.
  rewrite Hptr, decide_True by done. rewrite Hlen.
  apply take_inserts_partial; lia.
Qed.

(** An [append] that allocates leaves what every valid slice shows. *)
Lemma append_allocating_keeps (s s' t : Slice) (xs : list Field) (h h' : Heap) :
  (s_cap s < s_len s + length xs)%nat ->
  append E s xs h = (s', h') ->
  slice_ok h t = true ->
  slice_view h' t = slice_view h t.
Proof.
  intros Hfull. unfold append.
  rewrite (proj2 (Nat.leb_gt _ _) Hfull). intros [= <- <-].
  unfold slice_ok, slice_view. intros Hok.
  apply andb_prop in Hok as [Hlen Hcap].
  apply Nat.leb_le in Hlen. apply Nat.leb_le in Hcap.
  destruct (decide (s_ptr t < length (arrays h))%nat) as [Hp|Hp].
  - by rewrite array_at_alloc.
  - rewrite (array_at_outside h) in * by lia. simpl in Hcap.
    by replace (s_len t) with 0%nat by lia.
Qed.

Lemma fire_arrays (s : Severity) (c : LoggerCell) (msg : string)
    (flds : list Field) (h : Heap) :
  arrays (heap_of (fire E s c msg flds h))
  = arrays (snd (append E (fields c) flds h)).
Proof.
  unfold fire, formatMessage.
  destruct (append E (fields c) flds h) as [all h1].
  by destruct (kind c), s.
Qed.

Lemma slice_view_arrays (h h' : Heap) (t : Slice) :
  arrays h' = arrays h -> slice_view h' t = slice_view h t.
Proof. unfold slice_view, array_at. by intros ->. Qed.

(** X11. [WithError] binds its argument under the key ["error"] and
    [WithTime] under the key ["time"]: the new handle renders the receiver's
    fields, then that pair, then the fields of the call. *)
Theorem WithError_WithTime_keys (p : nat) (c : LoggerCell) (err : any) (t : Z)
    (h : Heap) :
  heap_ok h = true ->
  cells h !! p = Some c ->
  (exists p2 h2,
     WithError E p err h = Returns (Ptr p2) h2 /\
     forall (Y : Severity) (msg : string) (flds : list Field),
       written (emit E Y p2 msg flds h2) h2 =
         if level c <=? level_of Y
         then [record_of E (logger c)
                 (line_prefix E c (level_of Y) h +:+ msg
                    +:+ (fieldStr E (slice_view h (fields c))
                         +:+ (" error=" +:+ fmt_v E err)
                         +:+ fieldStr E flds)) h]
         else []) /\
  (exists p2 h2,
     WithTime E p t h = Returns (Ptr p2) h2 /\
     forall (Y : Severity) (msg : string) (flds : list Field),
       written (emit E Y p2 msg flds h2) h2 =
         if level c <=? level_of Y
         then [record_of E (logger c)
                 (line_prefix E c (level_of Y) h +:+ msg
                    +:+ (fieldStr E (slice_view h (fields c))
                         +:+ (" time=" +:+ fmt_v E (VTime t))
                         +:+ fieldStr E flds)) h]
         else []).
Proof.
  intros Hok Hc. unfold WithError, WithTime, WithField.
  split.
  - destruct (WithFields_then_emit E p c [mkField "error" err] h Hok Hc)
      as (h2 & c2 & Hcall & _ & _ & _ & _ & _ & _ & _ & _ & _ & _ & Hemit).
    eexists _, h2. split; [exact Hcall|]. intros Y msg flds.
    rewrite Hemit. case_match; [|done].
    rewrite !fieldStr_app, fieldStr_cons, fieldStr_nil. unfold fmt_field; simpl.
    by rewrite ?string_app_assoc, ?string_app_empty_r.
  - destruct (WithFields_then_emit E p c [mkField "time" (VTime t)] h Hok Hc)
      as (h2 & c2 & Hcall & _ & _ & _ & _ & _ & _ & _ & _ & _ & _ & Hemit).
    eexists _, h2. split; [exact Hcall|]. intros Y msg flds.
    rewrite Hemit. case_match; [|done].
    rewrite !fieldStr_app, fieldStr_cons, fieldStr_nil. unfold fmt_field; simpl.
    by rewrite ?string_app_assoc, ?string_app_empty_r.
Qed.

(** X12. [WithFields] composes: enriching with [xs] and then with [ys]
    gives a handle that shows and writes what one call with [xs ++ ys] gives,
    and [WithFields] with no field gives a handle that writes what the
    receiver writes. *)
Theorem WithFields_composes (p : nat) (c : LoggerCell) (xs ys : list Field) (h : Heap) :
  heap_ok h = true ->
  cells h !! p = Some c ->
  exists p1 h1 p2 h2 p3 h3 p0 h0,
    WithFields E p xs h = Returns (Ptr p1) h1 /\
    WithFields E p1 ys h1 = Returns (Ptr p2) h2 /\
    WithFields E p (xs ++ ys) h = Returns (Ptr p3) h3 /\
    WithFields E p [] h = Returns (Ptr p0) h0 /\
    forall (Y : Severity) (msg : string) (flds : list Field),
      written (emit E Y p2 msg flds h2) h2 = written (emit E Y p3 msg flds h3) h3 /\
      written (emit E Y p3 msg flds h3) h3 =
        (if level c <=? level_of Y
         then [record_of E (logger c)
                 (line_prefix E c (level_of Y) h +:+ msg
                    +:+ fieldStr E (slice_view h (fields c) ++ xs ++ ys ++ flds)) h]
         else []) /\
      written (emit E Y p0 msg flds h0) h0 = written (emit E Y p msg flds h) h.
Proof.
  intros Hok Hc.
  destruct (WithFields_then_emit E p c xs h Hok Hc)
    as (h1 & c1 & Hcall1 & Hcells1 & Hk1 & Hl1 & _ & Hlg1 & Hn1 & Hv1 & Hok1
        & Hclock1 & _ & _).
  assert (cells h1 !! length (cells h) = Some c1) as Hc1
    by (by rewrite Hcells1, lookup_app_r, Nat.sub_diag).
  destruct (WithFields_then_emit E _ c1 ys h1 Hok1 Hc1)
    as (h2 & c2 & Hcall2 & _ & _ & _ & _ & _ & _ & _ & _ & Hclock2 & _ & Hemit2).
  destruct (WithFields_then_emit E p c (xs ++ ys) h Hok Hc)
    as (h3 & c3 & Hcall3 & _ & _ & _ & _ & _ & _ & _ & _ & _ & _ & Hemit3).
  destruct (WithFields_then_emit E p c [] h Hok Hc)
    as (h0 & c0 & Hcall0 & _ & _ & _ & _ & _ & _ & _ & _ & _ & _ & Hemit0).
  eexists _, h1, _, h2, _, h3, _, h0. repeat (split; [done|]).
  intros Y msg flds.
  rewrite Hemit2, Hemit3, Hemit0, Hv1, Hl1, Hlg1.
  rewrite (line_prefix_clock E c1 _ h h1) by done.
  rewrite (record_of_clock E _ _ h h1) by done.
  unfold line_prefix at 1. rewrite Hk1, Hn1. fold (line_prefix E c (level_of Y) h).
  rewrite <- !app_assoc. change ([] ++ flds) with flds.
  split; [done|]. split; [done|].
  by rewrite (emit_written E Y p c) by (by eauto using heap_ok_lookup).
Qed.

(** [WithFields] when the new fields fit the receiver's capacity: the copy's
    slice is the receiver's array, longer. *)
Lemma WithFields_in_place (p : nat) (c : LoggerCell) (xs : list Field) (h : Heap) :
  cells h !! p = Some c ->
  (s_len (fields c) + length xs <= s_cap (fields c))%nat ->
  WithFields E p xs h =
    Returns (Ptr (length (cells h)))
      (set_cells
         (cells h ++
            [mkCell (kind c) (level c)
               (mkSlice (s_ptr (fields c)) (s_len (fields c) + length xs)
                        (s_cap (fields c)))
               (ctx c) (logger c) (name c)])
         (set_arrays
            (alter (list_inserts (s_len (fields c)) xs) (s_ptr (fields c)) (arrays h))
            h)).
Proof.
  intros Hc Hfit. unfold WithFields, deref. rewrite Hc.
  by rewrite append_in_place.
Qed.

(** X13. Handles enriched from a receiver that has spare capacity share
    its array: of two [WithField] calls on the same receiver, the second
    overwrites the pair of the first, so afterwards both new handles show the
    receiver's fields followed by the second pair. *)
Theorem siblings_share_spare_capacity (p : nat) (c : LoggerCell) (k1 k2 : string)
    (v1 v2 : any) (h : Heap) :
  heap_ok h = true ->
  cells h !! p = Some c ->
  (s_len (fields c) < s_cap (fields c))%nat ->
  exists p1 h1 p2 h2 c1 c2,
    WithField E p k1 v1 h = Returns (Ptr p1) h1 /\
    WithField E p k2 v2 h1 = Returns (Ptr p2) h2 /\
    p1 <> p2 /\
    cells h1 !! p1 = Some c1 /\ cells h2 !! p1 = Some c1 /\ cells h2 !! p2 = Some c2 /\
    slice_view h1 (fields c1) = slice_view h (fields c) ++ [mkField k1 v1] /\
    slice_view h2 (fields c1) = slice_view h (fields c) ++ [mkField k2 v2] /\
    slice_view h2 (fields c2) = slice_view h (fields c) ++ [mkField k2 v2].
Proof.
  intros Hok Hc Hspare. unfold WithField.
  pose proof (heap_ok_lookup h p c Hok Hc) as Hs.
  pose (c1 := mkCell (kind c) (level c)
                (mkSlice (s_ptr (fields c)) (s_len (fields c) + 1) (s_cap (fields c)))
                (ctx c) (logger c) (name c)).
  pose (a1 := set_arrays (alter (list_inserts (s_len (fields c)) [mkField k1 v1])
                            (s_ptr (fields c)) (arrays h)) h).
  pose (h1 := set_cells (cells h ++ [c1]) a1).
  assert (WithFields E p [mkField k1 v1] h = Returns (Ptr (length (cells h))) h1)
    as Hcall1 by (rewrite (WithFields_in_place p c) by (simpl; done || lia); done).
  assert (cells h1 !! p = Some c) as Hp1 by (by apply lookup_app_l_Some).
  assert (slice_view h1 (fields c) = slice_view h (fields c)) as Hv1.
  { unfold slice_view, h1, a1.
    change (array_at (set_cells ?x ?y) ?z) with (array_at y z).
    rewrite array_at_alter by apply list_inserts_nil.
    rewrite decide_True by done. by apply take_inserts_before. }
  assert (slice_ok h1 (fields c) = true) as Hs1.
  { unfold slice_ok in *. apply andb_prop in Hs as [H1 H2].
    apply andb_true_intro; split; [done|].
    apply Nat.leb_le. apply Nat.leb_le in H2.
    unfold h1, a1. change (array_at (set_cells ?x ?y) ?z) with (array_at y z).
    rewrite array_at_alter by apply list_inserts_nil.
    rewrite decide_True by done. by rewrite length_inserts. }
  pose (a2 := set_arrays (alter (list_inserts (s_len (fields c)) [mkField k2 v2])
                            (s_ptr (fields c)) (arrays h1)) h1).
  pose (h2 := set_cells (cells h1 ++ [c1]) a2).
  assert (WithFields E p [mkField k2 v2] h1 = Returns (Ptr (length (cells h1))) h2)
    as Hcall2 by (rewrite (WithFields_in_place p c) by (simpl; done || lia); done).
  assert (length (cells h1) = S (length (cells h))) as Hlen1
    by (unfold h1; simpl; rewrite length_app; simpl; lia).
  exists (length (cells h)), h1, (length (cells h1)), h2, c1, c1.
  split; [done|]. split; [done|]. split; [lia|].
  assert (cells h1 !! length (cells h) = Some c1) as Hc1
    by (unfold h1; simpl; by rewrite lookup_app_r, Nat.sub_diag).
  split; [done|].
  split; [unfold h2; simpl; by apply lookup_app_l_Some|].
  split; [unfold h2; simpl; by rewrite lookup_app_r, Nat.sub_diag|].
  split.
  { change (slice_view h1 (fields c1)) with (slice_view a1 (fields c1)).
    unfold a1.
    rewrite (view_after_in_place (fields c) (fields c1) [mkField k1 v1] 1 h);
      simpl; try done; lia. }
  assert (slice_view h2 (fields c1) = slice_view h (fields c) ++ [mkField k2 v2])
    as Hboth.
  { change (slice_view h2 (fields c1)) with (slice_view a2 (fields c1)). unfold a2.
    rewrite (view_after_in_place (fields c) (fields c1) [mkField k2 v2] 1 h1);
      simpl; try done; try lia. by rewrite Hv1. }
  by split.
Qed.

(** [WithFields] that has to allocate leaves what every valid slice shows. *)
Lemma WithFields_allocating_keeps (p : nat) (c : LoggerCell) (xs : list Field)
    (t : Slice) (h : Heap) :
  cells h !! p = Some c ->
  (s_cap (fields c) < s_len (fields c) + length xs)%nat ->
  slice_ok h t = true ->
  slice_view (heap_of (WithFields E p xs h)) t = slice_view h t.
Proof.
  intros Hc Hfull Ht. unfold WithFields, deref. rewrite Hc.
  destruct (append E (fields c) xs h) as [fs h1] eqn:Happ. simpl.
  change (slice_view (set_cells ?x ?y) ?z) with (slice_view y z).
  by eapply append_allocating_keeps.
Qed.

(** X14. When the receiver's slice is full (length equal to capacity, as
    for a newly constructed logger), each [WithField] copies the fields into
    a new array: two handles enriched from the same receiver keep their own
    pair. *)
Theorem full_receiver_gives_independent_handles (p : nat) (c : LoggerCell)
    (k1 k2 : string) (v1 v2 : any) (h : Heap) :
  heap_ok h = true ->
  cells h !! p = Some c ->
  s_len (fields c) = s_cap (fields c) ->
  exists p1 h1 p2 h2 c1 c2,
    WithField E p k1 v1 h = Returns (Ptr p1) h1 /\
    WithField E p k2 v2 h1 = Returns (Ptr p2) h2 /\
    p1 <> p2 /\
    cells h2 !! p1 = Some c1 /\ cells h2 !! p2 = Some c2 /\
    slice_view h2 (fields c1) = slice_view h (fields c) ++ [mkField k1 v1] /\
    slice_view h2 (fields c2) = slice_view h (fields c) ++ [mkField k2 v2].
Proof.
  intros Hok Hc Hfull. unfold WithField.
  destruct (WithFields_then_emit E p c [mkField k1 v1] h Hok Hc)
    as (h1 & c1 & Hcall1 & Hcells1 & _ & _ & _ & _ & _ & Hv1 & Hok1 & _).
  assert (cells h1 !! p = Some c) as Hp1
    by (rewrite Hcells1; by apply lookup_app_l_Some).
  assert (cells h1 !! length (cells h) = Some c1) as Hc1
    by (by rewrite Hcells1, lookup_app_r, Nat.sub_diag).
  pose proof (WithFields_spec E p c [mkField k1 v1] h Hok Hc)
    as (h1' & fs & Hcall1' & _ & _ & Hkeep & _).
  rewrite Hcall1 in Hcall1'. injection Hcall1' as <-.
  destruct (WithFields_then_emit E p c [mkField k2 v2] h1 Hok1 Hp1)
    as (h2 & c2 & Hcall2 & Hcells2 & _ & _ & _ & _ & _ & Hv2 & _).
  assert (length (cells h1) = S (length (cells h))) as Hlen1
    by (rewrite Hcells1, length_app; simpl; lia).
  exists (length (cells h)), h1, (length (cells h1)), h2, c1, c2.
  split; [done|]. split; [done|]. split; [lia|].
  split; [rewrite Hcells2; by apply lookup_app_l_Some|].
  split; [by rewrite Hcells2, lookup_app_r, Nat.sub_diag|].
  split; [|by rewrite Hv2, Hkeep].
  rewrite <- Hv1.
  pose proof (WithFields_allocating_keeps p c [mkField k2 v2] (fields c1) h1 Hp1)
    as Hstay.
  rewrite Hcall2 in Hstay. simpl in Hstay. apply Hstay; [lia|].
  by eapply heap_ok_lookup.
Qed.

(** X15. An emission can change what another handle shows. With spare
    capacity in the receiver, [formatMessage] appends the fields of the call
    in place: after [L2 := L.WithField(k, v)], an enabled call on [L] whose
    fields fit the capacity replaces the pair [L2] shows last by the first
    field of that call. *)
Theorem emission_overwrites_derived_field (s : Severity) (p : nat) (c : LoggerCell)
    (k : string) (v : any) (msg : string) (f : Field) (rest : list Field) (h : Heap) :
  heap_ok h = true ->
  cells h !! p = Some c ->
  level c <= level_of s ->
  (s_len (fields c) + S (length rest) <= s_cap (fields c))%nat ->
  exists p2 h2 c2,
    WithField E p k v h = Returns (Ptr p2) h2 /\
    cells h2 !! p2 = Some c2 /\
    slice_view h2 (fields c2) = slice_view h (fields c) ++ [mkField k v] /\
    let h3 := heap_of (emit E s p msg (f :: rest) h2) in
    cells h3 !! p2 = Some c2 /\
    slice_view h3 (fields c2) = slice_view h (fields c) ++ [f].
Proof.
  intros Hok Hc Hlvl Hfit. unfold WithField.
  pose proof (heap_ok_lookup h p c Hok Hc) as Hs.
  destruct (WithFields_then_emit E p c [mkField k v] h Hok Hc)
    as (h2 & c2 & Hcall & Hcells & _ & _ & _ & _ & _ & Hv & Hok2 & _).
  pose proof (WithFields_spec E p c [mkField k v] h Hok Hc)
    as (h2' & fs & Hcall' & _ & _ & Hkeep & _).
  rewrite Hcall in Hcall'. injection Hcall' as <-.
  assert (cells h2 !! p = Some c) as Hp2
    by (rewrite Hcells; by apply lookup_app_l_Some).
  assert (cells h2 !! length (cells h) = Some c2) as Hc2
    by (by rewrite Hcells, lookup_app_r, Nat.sub_diag).
  pose proof (heap_ok_lookup h2 p c Hok2 Hp2) as Hs2.
  assert (fields c2 = mkSlice (s_ptr (fields c)) (s_len (fields c) + 1)
                              (s_cap (fields c))) as Hfs.
  { rewrite (WithFields_in_place p c) in Hcall by (simpl; done || lia).
    injection Hcall as <-. simpl in Hc2.
    rewrite lookup_app_r, Nat.sub_diag in Hc2 by lia. by injection Hc2 as <-. }
  exists (length (cells h)), h2, c2.
  split; [done|]. split; [done|]. split; [done|]. simpl.
  destruct (emit_frame E s p msg (f :: rest) h2) as (Hcells3 & _).
  split; [by rewrite Hcells3|].
  rewrite (emit_unfold E s p c) by done.
  rewrite (proj2 (Z.leb_le _ _) Hlvl).
  erewrite slice_view_arrays; [|apply fire_arrays].
  rewrite append_in_place by (simpl; lia).
  change (snd (?a, ?b)) with b.
  rewrite (view_after_in_place (fields c) (fields c2) (f :: rest) 1 h2);
    simpl; try done; try lia.
  - by rewrite Hkeep.
  - by rewrite Hfs.
  - by rewrite Hfs.
Qed.

End EnrichmentMore.

(** ** The package-level functions *)

Section PackageMore.
Context (E : GoEnv) (ZapLoggerProvider LogrusLoggerProvider : LoggerProvider).
Context (extern_emit : string -> nat -> Severity -> string -> list Field -> Heap -> Outcome unit).

(** The registry the first [GetLogFactory] builds. *)
Lemma first_factory_lookups (g : Globals) :
  factory g = None ->
  let f := fst (GetLogFactory E ZapLoggerProvider LogrusLoggerProvider g) in
  GetDefaultProvider f = "console" /\
  GetProvider f "console" = Some (ConsoleLoggerProvider E) /\
  GetProvider f "zap" = Some ZapLoggerProvider /\
  GetProvider f "logrus" = Some LogrusLoggerProvider /\
  GetProvider f "std" = Some (StdLoggerProvider E) /\
  forall y, y <> "console" -> y <> "zap" -> y <> "logrus" -> y <> "std" ->
    GetProvider f y = None.
Proof.
  intros Hnone. unfold GetLogFactory. rewrite Hnone. simpl.
  unfold GetProvider, GetDefaultProvider; simpl.
  split; [done|].
  split; [rewrite !lookup_insert_ne by done; by rewrite lookup_insert_eq|].
  split; [rewrite !lookup_insert_ne by done; by rewrite lookup_insert_eq|].
  split; [rewrite !lookup_insert_ne by done; by rewrite lookup_insert_eq|].
  split; [by rewrite lookup_insert_eq|].
  intros y H1 H2 H3 H4. by rewrite !lookup_insert_ne, lookup_empty.
Qed.


(** The first call of [GetLogFactory] stores what it returns. *)
Lemma GetLogFactory_first (g : Globals) :
  factory g = None ->
  let '(f, g1) := GetLogFactory E ZapLoggerProvider LogrusLoggerProvider g in
  GetLogFactory E ZapLoggerProvider LogrusLoggerProvider g1 = (f, g1) /\
  globalLogger g1 = globalLogger g /\ loggerOnce g1 = loggerOnce g.
Proof. intros Hnone. unfold GetLogFactory. by rewrite Hnone. Qed.

(** X16. [GetLogFactory] builds the registry on the first call only: it
    registers exactly ["console"], ["zap"], ["logrus"] and ["std"] with
    ["console"] as default, stores it, and every later call returns the
    stored registry; the global logger and its once-flag are not touched. *)
Theorem GetLogFactory_singleton (g : Globals) :
  let '(f, g1) := GetLogFactory E ZapLoggerProvider LogrusLoggerProvider g in
  factory g1 = Some f /\
  GetLogFactory E ZapLoggerProvider LogrusLoggerProvider g1 = (f, g1) /\
  globalLogger g1 = globalLogger g /\ loggerOnce g1 = loggerOnce g /\
  (forall f0, factory g = Some f0 -> f = f0 /\ g1 = g) /\
  (factory g = None ->
     GetDefaultProvider f = "console" /\
     GetProvider f "console" = Some (ConsoleLoggerProvider E) /\
     GetProvider f "zap" = Some ZapLoggerProvider /\
     GetProvider f "logrus" = Some LogrusLoggerProvider /\
     GetProvider f "std" = Some (StdLoggerProvider E) /\
     forall y, y <> "console" -> y <> "zap" -> y <> "logrus" -> y <> "std" ->
       GetProvider f y = None).
Proof.
  pose proof (first_factory_lookups g) as Hfirst.
  unfold GetLogFactory in *. destruct (factory g) as [f0|] eqn:Hf.
  - rewrite Hf. split; [done|]. split; [done|]. split; [done|]. split; [done|].
    split; [by intros ? [= ->]|done].
  - simpl. split; [done|]. split; [done|]. split; [done|]. split; [done|].
    split; [done|]. intros _. by apply Hfirst.
Qed.





(** X18. The package-level constructors do not cache: two calls of
    [GetLoggerWithName] build two structs at different addresses, and leave
    the global logger alone. With the built-in registry, an unknown provider
    name given to [GetLoggerWithProvider], and the empty map given to
    [GetLoggerWithConfig], build what [GetLoggerWithName] builds. *)
Theorem package_constructors_do_not_cache (L : Logger) (b : bool) (name : string)
    (h : Heap) :
  let g := mkGlobals None L b in
  let '(o1, g1) :=
    GetLoggerWithName E ZapLoggerProvider LogrusLoggerProvider name g h in
  exists l1 h1, o1 = Returns l1 h1 /\
  let '(o2, g2) :=
    GetLoggerWithName E ZapLoggerProvider LogrusLoggerProvider name g1 h1 in
  exists l2 h2, o2 = Returns l2 h2 /\
  l1 = Ptr (length (cells h)) /\ l2 = Ptr (S (length (cells h))) /\ l1 <> l2 /\
  g2 = g1 /\ globalLogger g1 = L /\ loggerOnce g1 = b /\
  Returns l1 h1 = fallback_console name h /\
  GetLoggerWithConfig E ZapLoggerProvider LogrusLoggerProvider name ∅ g h
    = (Returns l1 h1, g1) /\
  forall pn, pn <> "console" -> pn <> "zap" -> pn <> "logrus" -> pn <> "std" ->
    GetLoggerWithProvider E ZapLoggerProvider LogrusLoggerProvider name pn g h
    = (Returns l1 h1, g1).
Proof.
  intros g.
  destruct (GetLogFactory E ZapLoggerProvider LogrusLoggerProvider g) as [f0 g1] eqn:Hgf.
  pose proof (GetLogFactory_first g eq_refl) as Hs. rewrite Hgf in Hs.
  destruct Hs as (Hagain & HgL & Hgo).
  pose proof (first_factory_lookups g eq_refl) as Hfirst. rewrite Hgf in Hfirst.
  change (fst (f0, g1)) with f0 in Hfirst.
  destruct Hfirst as (Hdef & Hcons & _ & _ & _ & Hother).
  unfold GetDefaultProvider, GetProvider in *.
  assert (forall n h0, CreateLogger E f0 n h0 = fallback_console n h0) as HCL.
  { intros n h0. by rewrite CreateLogger_default, Hdef, Hcons. }
  unfold GetLoggerWithName, GetLoggerWithConfig, GetLoggerWithProvider.
  rewrite Hgf, HCL. unfold fallback_console at 1.
  eexists _, _. split; [reflexivity|].
  rewrite Hagain, HCL. unfold fallback_console at 1.
  eexists _, _. split; [reflexivity|]. simpl cells.
  rewrite length_app; simpl length.
  split; [done|]. split; [f_equal; lia|]. split; [intros [=]; lia|].
  split; [done|]. split; [done|]. split; [done|]. split; [done|].
  split.
  - rewrite (CreateLoggerWithConfig_empty_agree E f0), HCL; [done|].
    by rewrite Hdef, Hcons.
  - intros pn H1 H2 H3 H4.
    unfold CreateLoggerWithProvider. by rewrite (Hother pn), Hdef, Hcons.
Qed.

End PackageMore.

(** ** The logrus and zap adapters: what reaches the library *)

Lemma last_value_from (k : string) (l : list Field) (acc : option any) :
  foldl (fun acc f => if String.eqb (Key f) k then Some (Value f) else acc) acc l
  = match last_value k l with Some v => Some v | None => acc end.
Proof.
  unfold last_value. revert acc. induction l as [|f l IH]; intros acc; [done|].
  simpl. rewrite IH, (IH (if String.eqb (Key f) k then _ else None)).
  destruct (foldl _ None l); [done|]. by destruct (String.eqb (Key f) k).
Qed.

Lemma last_value_app (k : string) (l1 l2 : list Field) :
  last_value k (l1 ++ l2)
  = match last_value k l2 with Some v => Some v | None => last_value k l1 end.
Proof. unfold last_value at 1. rewrite foldl_app. apply last_value_from. Qed.

Lemma last_value_none (k : string) (l : list Field) :
  (forall f, f ∈ l -> Key f <> k) -> last_value k l = None.
Proof.
  induction l as [|f l IH]; intros Hno; [done|].
  change (f :: l) with ([f] ++ l). rewrite last_value_app, IH.
  - unfold last_value; simpl.
    destruct (String.eqb_spec (Key f) k) as [Heq|]; [|done].
    exfalso. by apply (Hno f); [left|].
  - intros f' Hf'. apply Hno. by right.
Qed.

Lemma foldl_insert_lookup (k : string) (l : list Field) (m : gmap string any) :
  foldl (fun m f => <[Key f := Value f]> m) m l !! k
  = match last_value k l with Some v => Some v | None => m !! k end.
Proof.
  revert m. induction l as [|f l IH]; intros m; [done|].
  simpl. rewrite IH. change (f :: l) with ([f] ++ l). rewrite last_value_app.
  destruct (last_value k l); [done|].
  unfold last_value; simpl.
  destruct (String.eqb_spec (Key f) k) as [<-|Hne].
  - by rewrite lookup_insert_eq.
  - by rewrite lookup_insert_ne.
Qed.

Lemma foldl_insert_size (l : list Field) (m : gmap string any) :
  (size (foldl (fun m f => <[Key f := Value f]> m) m l) <= size m + length l)%nat.
Proof.
  revert m. induction l as [|f l IH]; intros m; simpl; [lia|].
  specialize (IH (<[Key f := Value f]> m)).
  pose proof (map_size_insert (Key f) (Value f) m) as Hs.
  destruct (m !! Key f); simpl in Hs; lia.
Qed.

(** X19. The logrus adapter turns the fields into a map, so equal keys
    collapse: a key holds the value of the last field with that key among
    the handle's fields followed by the fields of the call. A field of the
    call hides a bound field with the same key, a key that no field has is
    absent, and the map has at most as many entries as there are fields. *)
Theorem toLogrusFields_last_wins (l : LogrusLogger) (flds : list Field) (h : Heap)
    (k : string) :
  toLogrusFields l flds h !! k
    = last_value k (slice_view h (lr_fields l) ++ flds) /\
  (forall pre v post, flds = pre ++ mkField k v :: post ->
     (forall f, f ∈ post -> Key f <> k) ->
     toLogrusFields l flds h !! k = Some v) /\
  ((forall f, f ∈ slice_view h (lr_fields l) ++ flds -> Key f <> k) ->
     toLogrusFields l flds h !! k = None) /\
  (size (toLogrusFields l flds h)
     <= length (slice_view h (lr_fields l)) + length flds)%nat.
Proof.
  assert (toLogrusFields l flds h !! k
          = last_value k (slice_view h (lr_fields l) ++ flds)) as Hmain.
  { unfold toLogrusFields. rewrite !foldl_insert_lookup, lookup_empty.
    rewrite last_value_app. destruct (last_value k flds); [done|].
    by destruct (last_value k (slice_view h (lr_fields l))). }
  split; [done|]. split; [|split].
  - intros pre v post -> Hpost. rewrite Hmain.
    rewrite last_value_app.
    change (mkField k v :: post) with ([mkField k v] ++ post).
    rewrite (last_value_app k pre), (last_value_app k [mkField k v] post).
    rewrite (last_value_none k post Hpost).
    unfold last_value at 1; simpl. by rewrite String.eqb_refl.
  - intros Hno. rewrite Hmain. by apply last_value_none.
  - unfold toLogrusFields.
    pose proof (foldl_insert_size flds
      (foldl (fun m f => <[Key f := Value f]> m) ∅ (slice_view h (lr_fields l)))).
    pose proof (foldl_insert_size (slice_view h (lr_fields l)) ∅).
    rewrite map_size_empty in *. lia.
Qed.

Lemma foldl_snoc_map {A B} (g : A -> B) (l : list A) (acc : list B) :
  foldl (fun acc x => acc ++ [g x]) acc l = acc ++ (g <$> l).
Proof.
  revert acc. induction l as [|x l IH]; intros acc; simpl.
  - by rewrite app_nil_r.
  - by rewrite IH, <- app_assoc.
Qed.

Section ZapMore.
Context (E : GoEnv).

(** [Zap_WithFields] in terms of what the receiver shows. *)
Lemma Zap_WithFields_shows (z : ZapLogger) (flds : list Field) (h : Heap) :
  slice_ok h (z_fields z) = true ->
  let '(z', h') := Zap_WithFields E z flds h in
  slice_view h' (z_fields z') = slice_view h (z_fields z) ++ flds /\
  slice_ok h' (z_fields z') = true /\
  zap_bound (z_logger z') =
    zap_bound (z_logger z)
      ++ ((fun f => zap_Any (Key f) (Value f)) <$> (slice_view h (z_fields z) ++ flds)) /\
  forall call,
    toZapFields z' call h' =
      (fun f => zap_Any (Key f) (Value f)) <$> (slice_view h' (z_fields z') ++ call).
Proof.
  intros Hok. unfold Zap_WithFields.
  destruct (append E (z_fields z) flds h) as [fs h1] eqn:Happ.
  pose proof (append_view E _ _ _ _ _ Hok Happ) as Hview.
  pose proof (append_new_slice_ok E _ _ _ _ _ Hok Happ) as Hok1.
  simpl. rewrite Hview, foldl_snoc_map. simpl.
  repeat (split; [done|]).
  intros call. unfold toZapFields; simpl.
  by rewrite !foldl_snoc_map, Hview, !fmap_app.
Qed.

(** X20. In the zap adapter [WithFields] gives the zap logger all fields
    of the new handle, the receiver's included, although the receiver's zap
    logger was given those already; and each emission passes all fields of
    the handle once more, before the fields of the call. *)
Theorem Zap_WithFields_rebinds (z : ZapLogger) (flds : list Field) (h : Heap) :
  slice_ok h (z_fields z) = true ->
  let '(z', h') := Zap_WithFields E z flds h in
  slice_view h' (z_fields z') = slice_view h (z_fields z) ++ flds /\
  slice_ok h' (z_fields z') = true /\
  z_logger z' =
    zap_With (z_logger z)
      ((fun f => zap_Any (Key f) (Value f)) <$> (slice_view h (z_fields z) ++ flds)) /\
  zap_bound (z_logger z') =
    zap_bound (z_logger z)
      ++ ((fun f => zap_Any (Key f) (Value f)) <$> (slice_view h (z_fields z) ++ flds)) /\
  z_level z' = z_level z /\ z_ctx z' = z_ctx z /\ z_name z' = z_name z /\
  forall call,
    toZapFields z' call h' =
      (fun f => zap_Any (Key f) (Value f))
        <$> (slice_view h (z_fields z) ++ flds ++ call).
Proof.
  intros Hok. unfold Zap_WithFields.
  destruct (append E (z_fields z) flds h) as [fs h1] eqn:Happ.
  pose proof (append_view E _ _ _ _ _ Hok Happ) as Hview.
  pose proof (append_new_slice_ok E _ _ _ _ _ Hok Happ) as Hok1.
  simpl. rewrite Hview, foldl_snoc_map. simpl.
  repeat (split; [done|]).
  intros call. unfold toZapFields; simpl.
  rewrite !foldl_snoc_map, Hview. simpl.
  by rewrite !fmap_app, <- !app_assoc.
Qed.

(** X21. Chained enrichment in the zap adapter repeats fields: after
    [z.WithField(k1,v1).WithField(k2,v2)] the zap logger has been given the
    receiver's fields twice more, the first pair twice and the second pair
    once, on top of what the receiver's zap logger held. *)
Theorem Zap_chain_repeats_fields (z : ZapLogger) (k1 k2 : string) (v1 v2 : any)
    (h : Heap) :
  slice_ok h (z_fields z) = true ->
  let '(z1, h1) := Zap_WithField E z k1 v1 h in
  let '(z2, h2) := Zap_WithField E z1 k2 v2 h1 in
  zap_bound (z_logger z2) =
    zap_bound (z_logger z)
      ++ ((fun f => zap_Any (Key f) (Value f)) <$> slice_view h (z_fields z))
      ++ [zap_Any k1 v1]
      ++ ((fun f => zap_Any (Key f) (Value f)) <$> slice_view h (z_fields z))
      ++ [zap_Any k1 v1; zap_Any k2 v2] /\
  forall call,
    toZapFields z2 call h2 =
      ((fun f => zap_Any (Key f) (Value f)) <$> slice_view h (z_fields z))
        ++ [zap_Any k1 v1; zap_Any k2 v2]
        ++ ((fun f => zap_Any (Key f) (Value f)) <$> call).
Proof.
  intros Hok. unfold Zap_WithField.
  pose proof (Zap_WithFields_shows z [mkField k1 v1] h Hok) as H1.
  destruct (Zap_WithFields E z [mkField k1 v1] h) as [z1 h1].
  destruct H1 as (Hv1 & Hok1 & Hb1 & _).
  pose proof (Zap_WithFields_shows z1 [mkField k2 v2] h1 Hok1) as H2.
  destruct (Zap_WithFields E z1 [mkField k2 v2] h1) as [z2 h2].
  destruct H2 as (Hv2 & _ & Hb2 & Hcall).
  split.
  - rewrite Hb2, Hb1, Hv1. rewrite !fmap_app. simpl.
    by rewrite <- !app_assoc.
  - intros call. rewrite Hcall, Hv2, Hv1. rewrite !fmap_app. simpl.
    by rewrite <- !app_assoc.
Qed.

End ZapMore.

(** ** The text of a record *)

Section TextMore.
Context (E : GoEnv).

(** X22. Field text is not delimited: keys and values are written as
    they are, so one string value that contains [" k2=v2"] renders exactly
    like two fields. *)
Theorem field_text_is_ambiguous (k v1 k2 v2 : string) :
  (forall s, fmt_v E (VString s) = s) ->
  fieldStr E [mkField k (VString (v1 +:+ " " +:+ k2 +:+ "=" +:+ v2))]
  = fieldStr E [mkField k (VString v1); mkField k2 (VString v2)].
Proof.
  intros Hv. rewrite !fieldStr_cons, fieldStr_nil. unfold fmt_field; simpl.
  rewrite !Hv. by rewrite ?string_app_assoc, ?string_app_empty_r.
Qed.

(** X23. A logger built with no options has threshold Info and writes to
    stdout: its [Debug] writes nothing. A record of the std logger is the
    header of package [log] for [LstdFlags], then [[LEVEL] [name] msg fields];
    a record of the console logger has no header and starts with the
    adapter's own timestamp. *)
Theorem new_loggers_write (name : string) (s : Severity) (msg : string)
    (flds : list Field) (h : Heap) :
  (let '(p, h1) := NewStdLogger E name [] h in
   written (emit E s p msg flds h1) h1 =
     if InfoLevel <=? level_of s
     then [(Stdout,
            log_header E LstdFlags (clock h)
              +:+ (("[" +:+ LogLevel_String (level_of s) +:+ "] [" +:+ name +:+ "] ")
                     +:+ msg +:+ fieldStr E flds)
              +:+ newline)]
     else []) /\
  (let '(p, h1) := NewConsoleLogger E name [] h in
   written (emit E s p msg flds h1) h1 =
     if InfoLevel <=? level_of s
     then [(Stdout,
            ((time_Format E (clock h) +:+ " [" +:+ LogLevel_String (level_of s)
                +:+ "] [" +:+ name +:+ "] ")
               +:+ msg +:+ fieldStr E flds)
              +:+ newline)]
     else []).
Proof.
  unfold NewStdLogger, NewConsoleLogger; simpl.
  split.
  - match goal with |- context [cells h ++ [?c]] => set (cell := c) end.
    rewrite (emit_written E s _ cell); simpl.
    + by case_match.
    + by rewrite lookup_app_r, Nat.sub_diag.
    + done.
  - match goal with |- context [cells h ++ [?c]] => set (cell := c) end.
    rewrite (emit_written E s _ cell); simpl.
    + by case_match.
    + by rewrite lookup_app_r, Nat.sub_diag.
    + done.
Qed.

End TextMore.

(** ** The further properties on concrete inputs *)

Lemma SetLevel_is_per_handle_witness :
  heap_ok (Sample.one_console InfoLevel) = true /\
  cells (Sample.one_console InfoLevel) !! 0%nat = Some (Sample.console_cell InfoLevel) /\
  exists p2 h2 h3,
    WithField Sample.env 0 "a" (VInt 1) (Sample.one_console InfoLevel)
      = Returns (Ptr p2) h2 /\
    SetLevel 0 ErrorLevel h2 = Returns tt h3 /\
    GetLevel 0 h3 = Returns ErrorLevel h3 /\
    GetLevel p2 h3 = Returns InfoLevel h3.
Proof.
  split; [reflexivity|]. split; [reflexivity|].
  exact (proj1 (SetLevel_is_per_handle Sample.env 0 (Sample.console_cell InfoLevel)
                  "a" (VInt 1) ErrorLevel (Sample.one_console InfoLevel)
                  eq_refl eq_refl)).
Defined.

Lemma handles_are_stable_witness :
  cells (Sample.one_console InfoLevel) !! 0%nat = Some (Sample.console_cell InfoLevel) /\
  exists c',
    cells (perform_all Sample.env
             [CWithField 0 "a" (VInt 1); CEmit SInfo 0 "m" []; CSetLevel 1 DebugLevel]
             (Sample.one_console InfoLevel)) !! 0%nat = Some c' /\
    name c' = "svc" /\ fields c' = make_empty /\ level c' = InfoLevel.
Proof.
  split; [reflexivity|].
  destruct (handles_are_stable Sample.env
              [CWithField 0 "a" (VInt 1); CEmit SInfo 0 "m" []; CSetLevel 1 DebugLevel]
              0 (Sample.console_cell InfoLevel) (Sample.one_console InfoLevel) eq_refl)
    as (c' & Hc' & _ & Hf & _ & _ & Hn & Hl).
  exists c'. split; [exact Hc'|]. split; [exact Hn|]. split; [exact Hf|].
  apply Hl. intros l Hin.
  apply elem_of_cons in Hin as [Hin|Hin]; [discriminate Hin|].
  apply elem_of_cons in Hin as [Hin|Hin]; [discriminate Hin|].
  apply elem_of_cons in Hin as [Hin|Hin]; [discriminate Hin|].
  exact (not_elem_of_nil _ Hin).
Defined.

Lemma WithError_WithTime_keys_witness :
  heap_ok (Sample.one_console InfoLevel) = true /\
  cells (Sample.one_console InfoLevel) !! 0%nat = Some (Sample.console_cell InfoLevel) /\
  exists p2 h2,
    WithError Sample.env 0 (VError "timeout") (Sample.one_console InfoLevel)
      = Returns (Ptr p2) h2 /\
    written (Error Sample.env p2 "failed" [mkField "try" (VInt 2)] h2) h2
      = [(Stdout, "T0 [ERROR] [svc] failed error=timeout try=2" +:+ newline)].
Proof.
  split; [reflexivity|]. split; [reflexivity|].
  destruct (proj1 (WithError_WithTime_keys Sample.env 0 (Sample.console_cell InfoLevel)
                     (VError "timeout") 0 (Sample.one_console InfoLevel)
                     eq_refl eq_refl))
    as (p2 & h2 & Hcall & Hemit).
  exists p2, h2. split; [exact Hcall|].
  exact (Hemit SError "failed" [mkField "try" (VInt 2)]).
Defined.

Lemma WithFields_composes_witness :
  heap_ok (Sample.one_console InfoLevel) = true /\
  cells (Sample.one_console InfoLevel) !! 0%nat = Some (Sample.console_cell InfoLevel) /\
  exists p1 h1 p2 h2 p3 h3,
    WithFields Sample.env 0 [mkField "a" (VInt 1)] (Sample.one_console InfoLevel)
      = Returns (Ptr p1) h1 /\
    WithFields Sample.env p1 [mkField "b" (VInt 2)] h1 = Returns (Ptr p2) h2 /\
    WithFields Sample.env 0 [mkField "a" (VInt 1); mkField "b" (VInt 2)]
               (Sample.one_console InfoLevel) = Returns (Ptr p3) h3 /\
    written (Info Sample.env p2 "m" [] h2) h2
      = written (Info Sample.env p3 "m" [] h3) h3 /\
    written (Info Sample.env p3 "m" [] h3) h3
      = [(Stdout, "T0 [INFO] [svc] m a=1 b=2" +:+ newline)].
Proof.
  split; [reflexivity|]. split; [reflexivity|].
  destruct (WithFields_composes Sample.env 0 (Sample.console_cell InfoLevel)
              [mkField "a" (VInt 1)] [mkField "b" (VInt 2)]
              (Sample.one_console InfoLevel) eq_refl eq_refl)
    as (p1 & h1 & p2 & h2 & p3 & h3 & p0 & h0 & H1 & H2 & H3 & _ & Hemit).
  exists p1, h1, p2, h2, p3, h3.
  split; [exact H1|]. split; [exact H2|]. split; [exact H3|].
  split; [exact (proj1 (Hemit SInfo "m" []))|].
  exact (proj1 (proj2 (Hemit SInfo "m" []))).
Defined.

Lemma siblings_share_spare_capacity_witness :
  heap_ok Sample.chain3 = true /\
  cells Sample.chain3 !! 3%nat = Some Sample.chain3_cell /\
  (s_len (fields Sample.chain3_cell) < s_cap (fields Sample.chain3_cell))%nat /\
  exists p1 h1 p2 h2 c1,
    WithField Sample.env 3 "d" (VInt 4) Sample.chain3 = Returns (Ptr p1) h1 /\
    WithField Sample.env 3 "e" (VInt 5) h1 = Returns (Ptr p2) h2 /\
    cells h2 !! p1 = Some c1 /\
    slice_view h1 (fields c1)
      = [mkField "a" (VInt 1); mkField "b" (VInt 2); mkField "c" (VInt 3);
         mkField "d" (VInt 4)] /\
    slice_view h2 (fields c1)
      = [mkField "a" (VInt 1); mkField "b" (VInt 2); mkField "c" (VInt 3);
         mkField "e" (VInt 5)].
Proof.
  assert (Hspare : (s_len (fields Sample.chain3_cell)
                    < s_cap (fields Sample.chain3_cell))%nat)
    by (simpl; lia).
  split; [reflexivity|]. split; [reflexivity|]. split; [exact Hspare|].
  destruct (siblings_share_spare_capacity Sample.env 3 Sample.chain3_cell "d" "e"
              (VInt 4) (VInt 5) Sample.chain3 eq_refl eq_refl Hspare)
    as (p1 & h1 & p2 & h2 & c1 & c2 & H1 & H2 & _ & _ & Hc1 & _ & Hv1 & Hv2 & _).
  exists p1, h1, p2, h2, c1.
  split; [exact H1|]. split; [exact H2|]. split; [exact Hc1|].
  split; [exact Hv1|exact Hv2].
Defined.

Lemma full_receiver_gives_independent_handles_witness :
  heap_ok (Sample.one_console InfoLevel) = true /\
  cells (Sample.one_console InfoLevel) !! 0%nat = Some (Sample.console_cell InfoLevel) /\
  s_len (fields (Sample.console_cell InfoLevel))
    = s_cap (fields (Sample.console_cell InfoLevel)) /\
  exists p1 h1 p2 h2 c1 c2,
    WithField Sample.env 0 "a" (VInt 1) (Sample.one_console InfoLevel)
      = Returns (Ptr p1) h1 /\
    WithField Sample.env 0 "b" (VInt 2) h1 = Returns (Ptr p2) h2 /\
    cells h2 !! p1 = Some c1 /\ cells h2 !! p2 = Some c2 /\
    slice_view h2 (fields c1) = [mkField "a" (VInt 1)] /\
    slice_view h2 (fields c2) = [mkField "b" (VInt 2)].
Proof.
  split; [reflexivity|]. split; [reflexivity|]. split; [reflexivity|].
  destruct (full_receiver_gives_independent_handles Sample.env 0
              (Sample.console_cell InfoLevel) "a" "b" (VInt 1) (VInt 2)
              (Sample.one_console InfoLevel) eq_refl eq_refl eq_refl)
    as (p1 & h1 & p2 & h2 & c1 & c2 & H1 & H2 & _ & Hc1 & Hc2 & Hv1 & Hv2).
  exists p1, h1, p2, h2, c1, c2.
  split; [exact H1|]. split; [exact H2|]. split; [exact Hc1|]. split; [exact Hc2|].
  split; [exact Hv1|exact Hv2].
Defined.

Lemma emission_overwrites_derived_field_witness :
  heap_ok Sample.chain3 = true /\
  cells Sample.chain3 !! 3%nat = Some Sample.chain3_cell /\
  level Sample.chain3_cell <= level_of SInfo /\
  (s_len (fields Sample.chain3_cell) + 1 <= s_cap (fields Sample.chain3_cell))%nat /\
  exists p2 h2 c2,
    WithField Sample.env 3 "d" (VInt 4) Sample.chain3 = Returns (Ptr p2) h2 /\
    cells h2 !! p2 = Some c2 /\
    slice_view h2 (fields c2)
      = [mkField "a" (VInt 1); mkField "b" (VInt 2); mkField "c" (VInt 3);
         mkField "d" (VInt 4)] /\
    slice_view (heap_of (Info Sample.env 3 "parent" [mkField "x" (VInt 9)] h2))
               (fields c2)
      = [mkField "a" (VInt 1); mkField "b" (VInt 2); mkField "c" (VInt 3);
         mkField "x" (VInt 9)].
Proof.
  assert (Hlvl : level Sample.chain3_cell <= level_of SInfo)
    by (intros Hgt; discriminate Hgt).
  assert (Hfit : (s_len (fields Sample.chain3_cell) + 1
                  <= s_cap (fields Sample.chain3_cell))%nat) by (simpl; lia).
  split; [reflexivity|]. split; [reflexivity|]. split; [exact Hlvl|].
  split; [exact Hfit|].
  destruct (emission_overwrites_derived_field Sample.env SInfo 3 Sample.chain3_cell
              "d" (VInt 4) "parent" (mkField "x" (VInt 9)) [] Sample.chain3
              eq_refl eq_refl Hlvl Hfit)
    as (p2 & h2 & c2 & Hcall & Hc2 & Hv & _ & Hv3).
  exists p2, h2, c2.
  split; [exact Hcall|]. split; [exact Hc2|]. split; [exact Hv|exact Hv3].
Defined.

Lemma Zap_WithFields_rebinds_witness :
  slice_ok (empty_heap 0)
    (z_fields (mkZap (zap_Built "svc") InfoLevel make_empty Background "svc")) = true /\
  let '(z', h') :=
    Zap_WithFields Sample.env
      (mkZap (zap_Built "svc") InfoLevel make_empty Background "svc")
      [mkField "a" (VInt 1)] (empty_heap 0) in
  z_logger z' = zap_With (zap_Built "svc") [zap_Any "a" (VInt 1)] /\
  toZapFields z' [mkField "x" (VInt 9)] h'
    = [zap_Any "a" (VInt 1); zap_Any "x" (VInt 9)].
Proof.
  split; [reflexivity|].
  pose proof (Zap_WithFields_rebinds Sample.env
                (mkZap (zap_Built "svc") InfoLevel make_empty Background "svc")
                [mkField "a" (VInt 1)] (empty_heap 0) eq_refl) as H.
  split.
  - exact (proj1 (proj2 (proj2 H))).
  - exact (proj2 (proj2 (proj2 (proj2 (proj2 (proj2 (proj2 H))))))
             [mkField "x" (VInt 9)]).
Defined.

Lemma Zap_chain_repeats_fields_witness :
  slice_ok (empty_heap 0)
    (z_fields (mkZap (zap_Built "svc") InfoLevel make_empty Background "svc")) = true /\
  let '(z1, h1) :=
    Zap_WithField Sample.env
      (mkZap (zap_Built "svc") InfoLevel make_empty Background "svc")
      "a" (VInt 1) (empty_heap 0) in
  let '(z2, h2) := Zap_WithField Sample.env z1 "b" (VInt 2) h1 in
  zap_bound (z_logger z2)
    = [zap_Any "a" (VInt 1); zap_Any "a" (VInt 1); zap_Any "b" (VInt 2)].
Proof.
  split; [reflexivity|].
  exact (proj1 (Zap_chain_repeats_fields Sample.env
                  (mkZap (zap_Built "svc") InfoLevel make_empty Background "svc")
                  "a" "b" (VInt 1) (VInt 2) (empty_heap 0) eq_refl)).
Defined.

Lemma field_text_is_ambiguous_witness :
  (forall s, fmt_v Sample.env (VString s) = s) /\
  fieldStr Sample.env [mkField "user" (VString "bob admin=true")]
  = fieldStr Sample.env [mkField "user" (VString "bob"); mkField "admin" (VString "true")].
Proof.
  split; [intros s; reflexivity|].
  exact (field_text_is_ambiguous Sample.env "user" "bob" "admin" "true"
           (fun s => eq_refl)).
Defined.

